(** * Bayesian optimisation over a discrete pool of molecules

    A shallow embedding of the notebook
    [notebooks/Bayesian Optimisation Over Molecules.ipynb]: the helper
    functions [initialize_model], [optimize_acqf_and_get_observation] and
    [update_random_observations], the trial loop of the main cell and the
    confidence-interval function [ci].

    Conventions of the embedding.
    - A tensor or array of rows is a [list].  The shapes of the tensors
      are not represented in the loop; the numbers of dimensions of the
      entries of the best-so-far traces, on which [np.asarray] depends,
      are derived from the statements that build the entries.
    - Labels and acquisition values are float64 in the notebook.  The loop
      only compares, copies and takes maxima of them, so they are embedded
      as exact integers ([Z]); NaN is not represented.  The function
      [ci] ([std], [sqrt]) is embedded over the real numbers.
    - A Python exception is the name of its class; a computation that may
      raise returns a [result].
    - Library calls (scikit-learn's split, torch's random permutation, the
      hyperparameter optimiser, the analytic Expected Improvement) are the
      operations of the class [Libs].
    - Model objects live in a heap, since the likelihood object and the
      variable [model_ei] refer to the same model.
    - The calls made to the optimiser and to the constructor of the
      acquisition function are recorded in two traces of the state. *)

From Stdlib Require Import ZArith QArith Qround Reals Lia.
From stdpp Require Import base option list strings gmap.

Local Open Scope Z_scope.
Local Open Scope nat_scope.

(** ** Exceptions *)

Definition exn : Type := string.

Definition IndexError : exn := "IndexError".
Definition ValueError : exn := "ValueError".
Definition RuntimeError : exn := "RuntimeError".

(** The error class the specification names for an exhausted pool.  The
    notebook defines no exception class of its own. *)
Definition EmptyPoolError : exn := "EmptyPoolError".

Inductive result (A : Type) : Type :=
  | Raise (e : exn)
  | Ok (x : A).
Arguments Raise {A} e.
Arguments Ok {A} x.

#[global] Instance result_ret : MRet result := λ A x, Ok x.
#[global] Instance result_bind : MBind result := λ A B f m,
  match m with
  | Raise e => Raise e
  | Ok x => f x
  end.

(** [for i in idxs: s = body(i, s)] *)
Fixpoint for_range {S : Type} (body : nat → S → result S) (idxs : list nat) (s : S)
  : result S :=
  match idxs with
  | [] => Ok s
  | i :: idxs' => s' ← body i s; for_range body idxs' s'
  end.

(** ** Tensors *)

(** [t[i]] *)
Definition tensor_index {A} (t : list A) (i : nat) : result A :=
  match t !! i with
  | Some x => Ok x
  | None => Raise IndexError
  end.

(** [torch.cat((t[:i], t[i+1:]), axis=0)] *)
Definition cat_without {A} (t : list A) (i : nat) : list A :=
  take i t ++ drop (i + 1) t.

(** [lst[-1]] on a Python list *)
Definition py_last {A} (l : list A) : result A :=
  match last l with
  | Some x => Ok x
  | None => Raise IndexError
  end.

(** Python's builtin [max(a, b)]: the first argument unless the second is
    strictly greater. *)
Definition py_max (a b : Z) : Z := if (a <? b)%Z then b else a.

(** [torch.max(a, b)], the elementwise maximum. *)
Definition torch_max (a b : Z) : Z := Z.max a b.

(** [np.max(v)]: the reduction has no identity. *)
Definition np_max (v : list Z) : result Z :=
  match v with
  | [] => Raise ValueError
  | x :: v' => Ok (foldl Z.max x v')
  end.

(** [t.max()]; not defined on an empty tensor. *)
Definition tensor_max (v : list Z) : result Z :=
  match v with
  | [] => Raise RuntimeError
  | x :: v' => Ok (foldl Z.max x v')
  end.

(** [torch.argmax(v)]: the index of the maximal value; if there are
    several maximal values the index of the first one is returned.  On an
    empty tensor, without [dim], torch raises [IndexError] ("Expected
    reduction dim to be specified for input.numel() == 0"). *)
Fixpoint argmax_from (best_idx : nat) (best : Z) (i : nat) (v : list Z) : nat :=
  match v with
  | [] => best_idx
  | x :: v' =>
      if (best <? x)%Z then argmax_from i x (S i) v'
      else argmax_from best_idx best (S i) v'
  end.

Definition argmax (v : list Z) : result nat :=
  match v with
  | [] => Raise IndexError
  | x :: v' => Ok (argmax_from 0 x 1 v')
  end.

(** ** External collaborators *)

Class Libs (row hyper : Type) : Type := {
  (** hyperparameters of a freshly constructed [TanimotoGP] *)
  default_hyper : hyper;
  (** [fit_gpytorch_model]: the optimiser, started from the model's
      current hyperparameters, on the model's training data *)
  fit_hyper : hyper → list row → list Z → hyper;
  (** the analytic Expected Improvement of a model (hyperparameters and
      training data) for [best_f] at a query point *)
  ei_score : hyper → list row → list Z → Z → row → Z;
  (** the index draw of [train_test_split(.., test_size, random_state)]
      for [n] samples: train indices, test indices *)
  split_indices : Q → nat → nat → result (list nat * list nat);
  (** [torch.randperm(n)] at a state of the global generator *)
  randperm : nat → nat → list nat
}.

Definition holdout_set_size : Q := Qmake 95 100.

Section Notebook.
Context {row hyper : Type} `{L : Libs row hyper}.

(** ** The surrogate model objects *)

Definition loc : Type := nat.

Record TanimotoGP : Type := {
  gp_params : hyper;
  gp_train_x : list row;
  gp_train_y : list Z
}.

(** [ExactMarginalLogLikelihood(model.likelihood, model)] keeps a
    reference to the model it was built from. *)
Record ExactMarginalLogLikelihood : Type := { mll_model : loc }.

Definition deref (σ : gmap nat TanimotoGP) (l : loc) : result TanimotoGP :=
  match σ !! l with
  | Some gp => Ok gp
  | None => Raise RuntimeError
  end.

(** [model.state_dict()] *)
Definition state_dict (σ : gmap nat TanimotoGP) (l : loc) : result hyper :=
  gp ← deref σ l; Ok (gp_params gp).

(** [model.load_state_dict(sd)] *)
Definition load_state_dict (sd : hyper) (gp : TanimotoGP) : TanimotoGP :=
  {| gp_params := sd; gp_train_x := gp_train_x gp; gp_train_y := gp_train_y gp |}.

(** [initialize_model(train_x, train_obj, state_dict=None)]: a new model
    object with default hyperparameters, the likelihood that refers to
    it, and the state dict loaded into the model if one is passed. *)
Definition initialize_model (train_x : list row) (train_obj : list Z)
    (sd : option hyper) (σ : gmap nat TanimotoGP)
  : ExactMarginalLogLikelihood * loc * gmap nat TanimotoGP :=
  let model := fresh (dom σ) in
  let σ1 := <[model := {| gp_params := default_hyper;
                          gp_train_x := train_x;
                          gp_train_y := train_obj |}]> σ in
  let mll := {| mll_model := model |} in
  let σ2 := match sd with
            | Some sd => alter (load_state_dict sd) model σ1
            | None => σ1
            end in
  (mll, model, σ2).

(** [fit_gpytorch_model(mll)] updates, in place, the hyperparameters of
    the model the likelihood refers to.  The hyperparameters the
    optimiser started from are returned as well, for the call trace. *)
Definition fit_gpytorch_model (mll : ExactMarginalLogLikelihood)
    (σ : gmap nat TanimotoGP) : result (hyper * hyper * gmap nat TanimotoGP) :=
  gp ← deref σ (mll_model mll);
  let fitted := fit_hyper (gp_params gp) (gp_train_x gp) (gp_train_y gp) in
  Ok (gp_params gp, fitted,
      <[mll_model mll := load_state_dict fitted gp]> σ).

(** [ExpectedImprovement(model=model, best_f=best_f)], as the function it
    computes on a query point. *)
Definition ExpectedImprovement (gp : TanimotoGP) (best_f : Z) : row → Z :=
  ei_score (gp_params gp) (gp_train_x gp) (gp_train_y gp) best_f.

(** ** Helper functions of the loop *)

(** The evaluation loop of [optimize_acqf_and_get_observation]:
    [for i in range(len(heldout_outputs)):
       acq_vals.append(acq_func(heldout_inputs[i]))].
    Every evaluation is kept together with the point it was made at. *)
Fixpoint acq_loop (acq_func : row → Z) (heldout_inputs : list row)
    (idxs : list nat) (evals : list (row * Z)) : result (list (row * Z)) :=
  match idxs with
  | [] => Ok evals
  | i :: idxs' =>
      x ← tensor_index heldout_inputs i;
      acq_loop acq_func heldout_inputs idxs' (evals ++ [(x, acq_func x)])
  end.

Definition acq_evaluations (acq_func : row → Z) (heldout_inputs : list row)
    (heldout_outputs : list Z) : result (list (row * Z)) :=
  acq_loop acq_func heldout_inputs (seq 0 (length heldout_outputs)) [].

Definition optimize_acqf_and_get_observation (acq_func : row → Z)
    (heldout_inputs : list row) (heldout_outputs : list Z)
  : result (row * Z * list row * list Z) :=
  evals ← acq_evaluations acq_func heldout_inputs heldout_outputs;
  (* acq_vals = torch.tensor(acq_vals) *)
  let acq_vals := evals.*2 in
  (* best_idx = torch.argmax(acq_vals) *)
  best_idx ← argmax acq_vals;
  (* new_x = heldout_inputs[best_idx]; new_obj = heldout_outputs[best_idx] *)
  new_x ← tensor_index heldout_inputs best_idx;
  new_obj ← tensor_index heldout_outputs best_idx;
  (* the selected input and value are deleted from the heldout set *)
  Ok (new_x, new_obj,
      cat_without heldout_inputs best_idx,
      cat_without heldout_outputs best_idx).

(** [g] is the state of torch's global generator at the call. *)
Definition update_random_observations (g : nat) (best_random : list Z)
    (heldout_inputs : list row) (heldout_outputs : list Z)
  : result (list Z * list row * list Z) :=
  (* index = torch.randperm(len(heldout_outputs))[0] *)
  index ← tensor_index (randperm g (length heldout_outputs)) 0;
  (* next_random_best = heldout_outputs[index] *)
  next_random_best ← tensor_index heldout_outputs index;
  (* best_random.append(max(best_random[-1], next_random_best)) *)
  prev ← py_last best_random;
  Ok (best_random ++ [py_max prev next_random_best],
      cat_without heldout_inputs index,
      cat_without heldout_outputs index).

(** ** The main cell *)

(** [a[idx]] for an array of indices *)
Fixpoint take_rows {A} (a : list A) (idx : list nat) : result (list A) :=
  match idx with
  | [] => Ok []
  | i :: idx' => x ← tensor_index a i; r ← take_rows a idx'; Ok (x :: r)
  end.

(** [train_test_split(X, y, test_size=.., random_state=..)]: arrays of
    different lengths are refused; the rows are selected by the drawn
    indices. *)
Definition train_test_split {A B} (X : list A) (y : list B) (test_size : Q)
    (random_state : nat) : result (list A * list A * list B * list B) :=
  if decide (length X = length y) then
    '(train, test) ← split_indices test_size random_state (length X);
    X_train ← take_rows X train;
    X_test ← take_rows X test;
    y_train ← take_rows y train;
    y_test ← take_rows y test;
    Ok (X_train, X_test, y_train, y_test)
  else Raise ValueError.

(** The variables of the notebook, the model objects they refer to, the
    state of torch's generator, and the trace of the calls made to the
    optimiser (start and fitted hyperparameters) and to the constructor of
    the acquisition function ([best_f]).  A name that is not bound yet
    holds an empty value; every trial binds its names before reading
    them. *)
Record notebook : Type := {
  X : list row;
  y : list Z;
  best_observed_all_ei : list (list Z);
  best_random_all : list (list Z);
  best_observed_ei : list Z;
  best_random : list Z;
  train_x_ei : list row;
  train_y_ei : list Z;
  heldout_x_ei : list row;
  heldout_y_ei : list Z;
  heldout_x_random : list row;
  heldout_y_random : list Z;
  mll_ei : ExactMarginalLogLikelihood;
  model_ei : loc;
  heap : gmap nat TanimotoGP;
  rng : nat;
  fit_trace : list (hyper * hyper);
  best_f_trace : list Z
}.

(** The state after [X = loader.features; y = loader.labels] and
    [best_observed_all_ei, best_random_all = [], []]. *)
Definition load (features : list row) (labels : list Z) (g : nat) : notebook :=
  {| X := features; y := labels;
     best_observed_all_ei := []; best_random_all := [];
     best_observed_ei := []; best_random := [];
     train_x_ei := []; train_y_ei := [];
     heldout_x_ei := []; heldout_y_ei := [];
     heldout_x_random := []; heldout_y_random := [];
     mll_ei := {| mll_model := 0 |}; model_ei := 0;
     heap := ∅; rng := g;
     fit_trace := []; best_f_trace := [] |}.

(** The body of the trial loop up to the inner loop. *)
Definition trial_init (trial : nat) (s : notebook) : result notebook :=
  '(train_x, heldout_x, train_y, heldout_y) ←
    train_test_split (X s) (y s) holdout_set_size trial;
  (* best_observed_value_ei = torch.tensor(np.max(train_y_ei)) *)
  best_observed_value_ei ← np_max train_y;
  (* the random policy starts from the same heldout tensors;
     mll_ei, model_ei = initialize_model(train_x_ei, train_y_ei) *)
  let '(mll, model, σ) := initialize_model train_x train_y None (heap s) in
  Ok {| X := X s; y := y s;
        best_observed_all_ei := best_observed_all_ei s;
        best_random_all := best_random_all s;
        best_observed_ei := [best_observed_value_ei];
        best_random := [best_observed_value_ei];
        train_x_ei := train_x; train_y_ei := train_y;
        heldout_x_ei := heldout_x; heldout_y_ei := heldout_y;
        heldout_x_random := heldout_x; heldout_y_random := heldout_y;
        mll_ei := mll; model_ei := model;
        heap := σ; rng := rng s;
        fit_trace := fit_trace s; best_f_trace := best_f_trace s |}.

(** The body of the inner loop. *)
Definition bo_iteration (s : notebook) : result notebook :=
  (* fit_gpytorch_model(mll_ei) *)
  '(start, fitted, σ1) ← fit_gpytorch_model (mll_ei s) (heap s);
  (* EI = ExpectedImprovement(model=model_ei, best_f=train_y_ei.max()) *)
  best_f ← tensor_max (train_y_ei s);
  gp ← deref σ1 (model_ei s);
  let EI := ExpectedImprovement gp best_f in
  '(new_x_ei, new_obj_ei, heldout_x, heldout_y) ←
    optimize_acqf_and_get_observation EI (heldout_x_ei s) (heldout_y_ei s);
  (* train_x_ei = torch.cat([train_x_ei, new_x_ei]), and train_y_ei *)
  let train_x := train_x_ei s ++ [new_x_ei] in
  let train_y := train_y_ei s ++ [new_obj_ei] in
  '(best_rnd, heldout_x_rnd, heldout_y_rnd) ←
    update_random_observations (rng s) (best_random s)
      (heldout_x_random s) (heldout_y_random s);
  (* best_value_ei = torch.max(new_obj_ei, best_observed_ei[-1]) *)
  prev ← py_last (best_observed_ei s);
  let best_value_ei := torch_max new_obj_ei prev in
  (* mll_ei, model_ei =
       initialize_model(train_x_ei, train_y_ei, model_ei.state_dict()) *)
  sd ← state_dict σ1 (model_ei s);
  let '(mll, model, σ2) := initialize_model train_x train_y (Some sd) σ1 in
  Ok {| X := X s; y := y s;
        best_observed_all_ei := best_observed_all_ei s;
        best_random_all := best_random_all s;
        best_observed_ei := best_observed_ei s ++ [best_value_ei];
        best_random := best_rnd;
        train_x_ei := train_x; train_y_ei := train_y;
        heldout_x_ei := heldout_x; heldout_y_ei := heldout_y;
        heldout_x_random := heldout_x_rnd; heldout_y_random := heldout_y_rnd;
        mll_ei := mll; model_ei := model;
        heap := σ2; rng := S (rng s);
        fit_trace := fit_trace s ++ [(start, fitted)];
        best_f_trace := best_f_trace s ++ [best_f] |}.

(** [for iteration in range(1, N_ITERS + 1): ...] *)
Definition bo_loop (N_ITERS : nat) (s : notebook) : result notebook :=
  for_range (λ _, bo_iteration) (seq 1 N_ITERS) s.

(** The end of the trial: the two traces are appended to the results. *)
Definition trial_end (s : notebook) : notebook :=
  {| X := X s; y := y s;
     best_observed_all_ei := best_observed_all_ei s ++ [best_observed_ei s];
     best_random_all := best_random_all s ++ [best_random s];
     best_observed_ei := best_observed_ei s;
     best_random := best_random s;
     train_x_ei := train_x_ei s; train_y_ei := train_y_ei s;
     heldout_x_ei := heldout_x_ei s; heldout_y_ei := heldout_y_ei s;
     heldout_x_random := heldout_x_random s;
     heldout_y_random := heldout_y_random s;
     mll_ei := mll_ei s; model_ei := model_ei s;
     heap := heap s; rng := rng s;
     fit_trace := fit_trace s; best_f_trace := best_f_trace s |}.

Definition trial_body (N_ITERS : nat) (trial : nat) (s : notebook)
  : result notebook :=
  s0 ← trial_init trial s;
  s1 ← bo_loop N_ITERS s0;
  Ok (trial_end s1).

(** [for trial in range(1, N_TRIALS + 1): ...] *)
Definition experiment (N_TRIALS N_ITERS : nat) (s : notebook) : result notebook :=
  for_range (trial_body N_ITERS) (seq 1 N_TRIALS) s.

End Notebook.

Arguments notebook : clear implicits.
Arguments TanimotoGP : clear implicits.

(** ** Aggregation over the trials *)

Definition N_TRIALS_default : nat := 20.
Definition N_ITERS_default : nat := 20.

(** *** The tensors of a trace

    Every entry of [best_observed_ei] is a tensor of one element; the
    entries differ in their number of dimensions.  [label_ndim] is the
    number of dimensions of the label array [y], which the split and
    [torch.tensor] hand on to [heldout_y_ei]. *)

(** [t[i]] drops the first dimension. *)
Definition index_ndim (d : nat) : nat := d - 1.

(** [t.unsqueeze(-1)] adds a dimension. *)
Definition unsqueeze_ndim (d : nat) : nat := S d.

(** [torch.max(a, b)] broadcasts tensors of one element to the greater
    number of dimensions. *)
Definition broadcast_ndim (a b : nat) : nat := a `max` b.

(** The numbers of dimensions of the [k] entries the iterations append:
    each is [torch.max(new_obj_ei, best_observed_ei[-1])] with
    [new_obj_ei = heldout_outputs[best_idx].unsqueeze(-1)]; [prev] is the
    number of dimensions of the last entry so far. *)
Fixpoint appended_ndims (label_ndim prev k : nat) : list nat :=
  match k with
  | 0 => []
  | S k' =>
      let new_obj_ei := unsqueeze_ndim (index_ndim label_ndim) in
      let best_value_ei := broadcast_ndim new_obj_ei prev in
      best_value_ei :: appended_ndims label_ndim best_value_ei k'
  end.

(** A trace of the GP policy as the list of tensors it is, each with its
    number of dimensions: the first entry is
    [torch.tensor(np.max(train_y_ei))], without dimensions. *)
Definition best_observed_tensors (label_ndim : nat) (trace : list Z)
  : list (nat * Z) :=
  zip (0 :: appended_ndims label_ndim 0 (length trace - 1)) trace.

(** [np.asarray(rows)] on a list of lists of tensors of one element.  An
    array is built when the rows have one length and the entries one
    number of dimensions; on a ragged argument numpy raises [ValueError]
    ("the requested array has an inhomogeneous shape").  The unit
    dimensions of the entries are not kept in the result. *)
Definition np_asarray (rows : list (list (nat * Z))) : result (list (list R)) :=
  let first := default [] (head rows) in
  let d := (default (0, 0%Z) (head first)).1 in
  if decide (Forall (λ r, length r = length first
                          ∧ Forall (λ e : nat * Z, e.1 = d) r) rows)
  then Ok (map (map (λ e : nat * Z, IZR e.2)) rows)
  else Raise ValueError.

(** *** The confidence interval *)

Local Open Scope R_scope.








Local Close Scope R_scope.

(** ** Predicates of the specification *)

(** [m] is the greatest element of [v]. *)
Definition is_max_of (m : Z) (v : list Z) : Prop :=
  m ∈ v ∧ ∀ x, x ∈ v → (x ≤ m)%Z.

(** [train] and [heldout] partition the index set [0 .. N-1]. *)
Record partition_of (N : nat) (train heldout : list nat) : Prop := {
  part_disjoint : ∀ i, i ∈ train → i ∉ heldout;
  part_cover : ∀ i, i < N ↔ i ∈ train ∨ i ∈ heldout;
  part_train_nodup : NoDup train;
  part_heldout_nodup : NoDup heldout;
  part_size : length train + length heldout = N
}.

(** The notebook keeps no train tensor for the random policy.  The points
    the random policy has observed are the initial train set and the
    points that have left its pool since the trial began. *)
Definition observed_random {hyper} (s0 s : notebook nat hyper) : list nat :=
  train_x_ei s0 ++ list_difference (heldout_x_random s0) (heldout_x_random s).

(** The bookkeeping of the two pools, [k] iterations after the state [s0]
    the trial started from. *)
Record pools_ok {row hyper} (s0 : notebook row hyper) (k : nat)
    (s : notebook row hyper) : Prop := {
  po_gp_x : train_x_ei s ++ heldout_x_ei s ≡ₚ train_x_ei s0 ++ heldout_x_ei s0;
  po_gp_y : train_y_ei s ++ heldout_y_ei s ≡ₚ train_y_ei s0 ++ heldout_y_ei s0;
  po_len_train : length (train_x_ei s) = length (train_y_ei s);
  po_len_gp : length (heldout_x_ei s) = length (heldout_y_ei s);
  po_len_rnd : length (heldout_x_random s) = length (heldout_y_random s);
  po_sub_gp : heldout_x_ei s `sublist_of` heldout_x_ei s0;
  po_sub_rnd : heldout_x_random s `sublist_of` heldout_x_random s0;
  po_size_gp : length (heldout_x_ei s) + k = length (heldout_x_ei s0);
  po_size_rnd : length (heldout_x_random s) + k = length (heldout_x_random s0)
}.

(** [trace] is the running maximum of the labels [obs] observed one per
    iteration: it has one entry more than [obs], and the entry after
    position [i] is the maximum of entry [i] and the [i]-th label. *)
Definition running_best (trace obs : list Z) : Prop :=
  length trace = S (length obs)
  ∧ ∀ i prev lbl, trace !! i = Some prev → obs !! i = Some lbl →
                  trace !! S i = Some (Z.max prev lbl).

Definition non_decreasing (trace : list Z) : Prop :=
  ∀ i a b, trace !! i = Some a → trace !! S i = Some b → (a ≤ b)%Z.

(** A selection removes position [idx] from both tensors of a pool, the
    point [x] and its label [lbl]. *)
Definition removes_at {A B} (idx : nat) (x : A) (lbl : B)
    (inputs : list A) (outputs : list B)
    (inputs' : list A) (outputs' : list B) : Prop :=
  inputs !! idx = Some x ∧ outputs !! idx = Some lbl
  ∧ inputs' = delete idx inputs ∧ outputs' = delete idx outputs.

(** Position by position, every point of the pool [inputs', outputs']
    carries the label it carried in the pool [inputs, outputs]. *)
Definition pairing_kept {A B} (inputs : list A) (outputs : list B)
    (inputs' : list A) (outputs' : list B) : Prop :=
  length inputs' = length outputs'
  ∧ ∀ i x lbl, inputs' !! i = Some x → outputs' !! i = Some lbl →
      ∃ j, inputs !! j = Some x ∧ outputs !! j = Some lbl.

(** A trace of fits, each a pair of the hyperparameters the optimiser
    started from and the hyperparameters it returned, is warm-started:
    the first fit starts from the defaults, every later fit from the
    hyperparameters the fit before it returned. *)
Definition warm_started {hyper} (defaults : hyper) (fits : list (hyper * hyper))
  : Prop :=
  (∀ fit, fits !! 0 = Some fit → fit.1 = defaults)
  ∧ (∀ i fit fit', fits !! i = Some fit → fits !! S i = Some fit' →
                   fit'.1 = fit.2).

(** The hyperparameters the next fit of a trial starts from, given the
    fits made so far: those the last fit returned, or the defaults. *)
Definition next_start {row hyper} `{L : Libs row hyper}
    (fits : list (hyper * hyper)) : hyper :=
  match last fits with
  | Some fit => fit.2
  | None => default_hyper
  end.

Definition same_dataset {row hyper} (s s' : notebook row hyper) : Prop :=
  X s' = X s ∧ y s' = y s.

(** The results hold [n] traces per policy, each of [N_ITERS + 1]
    entries. *)
Definition results_shape {row hyper} (N_ITERS n : nat)
    (s : notebook row hyper) : Prop :=
  length (best_observed_all_ei s) = n
  ∧ length (best_random_all s) = n
  ∧ Forall (λ trace, length trace = N_ITERS + 1) (best_observed_all_ei s)
  ∧ Forall (λ trace, length trace = N_ITERS + 1) (best_random_all s).

(** What the loop needs of [torch.randperm(n)] for a positive [n]: a
    first entry, below [n]. *)
Definition randperm_in_range {row hyper} `{L : Libs row hyper} : Prop :=
  ∀ g n, 0 < n → ∃ i, randperm g n !! 0 = Some i ∧ i < n.

(** The part of the state that belongs to the GP policy, and the part
    that belongs to the random policy. *)
Definition gp_side {row hyper} (s : notebook row hyper)
  : list row * list Z * list row * list Z * list Z :=
  (train_x_ei s, train_y_ei s, heldout_x_ei s, heldout_y_ei s,
   best_observed_ei s).

Definition random_side {row hyper} (s : notebook row hyper)
  : list row * list Z * list Z * nat :=
  (heldout_x_random s, heldout_y_random s, best_random s, rng s).

(** Two states in which the GP policy is in the same position: the same
    tensors and trace, and the same model behind the likelihood. *)
Definition gp_aligned {row hyper} (s t : notebook row hyper) : Prop :=
  gp_side s = gp_side t
  ∧ mll_model (mll_ei s) = model_ei s
  ∧ mll_model (mll_ei t) = model_ei t
  ∧ ∃ gp, heap s !! model_ei s = Some gp ∧ heap t !! model_ei t = Some gp.

(** ** Relabelling the candidates

    The loop never looks inside a row: it hands rows to the libraries and
    moves them between tensors.  A notebook over rows of type [A] is
    mapped to a notebook over rows of type [B] by a function [f]; the
    libraries for [B] are seen from [A] through [f]. *)

Definition map_result {S T} (h : S → T) (r : result S) : result T :=
  match r with
  | Raise e => Raise e
  | Ok x => Ok (h x)
  end.

Definition pullback {A B hyper} (f : A → B) (LB : Libs B hyper) : Libs A hyper := {|
  default_hyper := default_hyper;
  fit_hyper h train_x train_y := fit_hyper h (f <$> train_x) train_y;
  ei_score h train_x train_y best_f x :=
    ei_score h (f <$> train_x) train_y best_f (f x);
  split_indices := split_indices;
  randperm := randperm
|}.

Definition map_gp {A B hyper} (f : A → B) (gp : TanimotoGP A hyper)
  : TanimotoGP B hyper :=
  {| gp_params := gp_params gp;
     gp_train_x := f <$> gp_train_x gp;
     gp_train_y := gp_train_y gp |}.

Definition map_notebook {A B hyper} (f : A → B) (s : notebook A hyper)
  : notebook B hyper :=
  {| X := f <$> X s; y := y s;
     best_observed_all_ei := best_observed_all_ei s;
     best_random_all := best_random_all s;
     best_observed_ei := best_observed_ei s;
     best_random := best_random s;
     train_x_ei := f <$> train_x_ei s; train_y_ei := train_y_ei s;
     heldout_x_ei := f <$> heldout_x_ei s; heldout_y_ei := heldout_y_ei s;
     heldout_x_random := f <$> heldout_x_random s;
     heldout_y_random := heldout_y_random s;
     mll_ei := mll_ei s; model_ei := model_ei s;
     heap := map_gp f <$> heap s; rng := rng s;
     fit_trace := fit_trace s; best_f_trace := best_f_trace s |}.

(** ** A small instance

    Forty candidates identified by their dataset index, a deterministic
    stand-in for every library: the split follows scikit-learn's
    [ShuffleSplit] on a rotation of the indices, the generator rotates as
    well, the optimiser and the acquisition function are arbitrary
    arithmetic. *)

Module Demo.

Definition split (test_size : Q) (seed n : nat) : result (list nat * list nat) :=
  let n_test := Z.to_nat (Qceiling (test_size * inject_Z (Z.of_nat n))) in
  let n_train := n - n_test in
  if decide (n_train = 0) then Raise ValueError
  else
    let perm := rotate seed (seq 0 n) in
    Ok (take n_train (drop n_test perm), take n_test perm).

#[global] Instance libs : Libs nat nat := {|
  default_hyper := 0;
  fit_hyper h train_x train_y := S h + length train_x;
  ei_score h train_x train_y best_f x :=
    (Z.of_nat (x mod 7) - best_f + Z.of_nat h)%Z;
  split_indices := split;
  randperm g n := rotate (g + 3) (seq 0 n)
|}.

Definition N : nat := 40.

Definition labels : list Z := map (λ i, Z.of_nat ((i * 37) mod 101)) (seq 0 N).

Definition nb : notebook nat nat := load (seq 0 N) labels 0.

(** The state a result holds, for examples that are known to succeed. *)
Definition get (r : result (notebook nat nat)) : notebook nat nat :=
  match r with
  | Ok s => s
  | Raise _ => nb
  end.

Definition s0 : notebook nat nat := get (trial_init 1 nb).
Definition s3 : notebook nat nat := get (bo_loop 3 s0).
Definition s4 : notebook nat nat := get (bo_iteration s3).
Definition s9 : notebook nat nat := get (bo_loop 5 s4).

End Demo.

(** A second set of libraries for the small instance: the same split and
    the same generator, another optimiser and another acquisition
    function. *)
Module Demo2.

Definition libs : Libs nat nat := {|
  default_hyper := 5;
  fit_hyper h train_x train_y := h + 2 * length train_x;
  ei_score h train_x train_y best_f x :=
    (Z.of_nat ((x * 5 + h) mod 11) + best_f)%Z;
  split_indices := Demo.split;
  randperm g n := rotate (g + 3) (seq 0 n)
|}.

End Demo2.

(** * Verification *)

(** ** The result monad *)

Lemma bind_Ok {A B} (m : result A) (k : A → result B) (r : B) :
  m ≫= k = Ok r → ∃ x, m = Ok x ∧ k x = Ok r.
Proof. destruct m as [e|x]; [discriminate | eauto]. Qed.

(** Decompose a successful run of a sequence of binds. *)
Ltac inv_ok H :=
  repeat match type of H with
  | _ ≫= _ = Ok _ =>
      let x := fresh "x" in
      let Hx := fresh "Hx" in
      apply bind_Ok in H as (x & Hx & H)
  | (let '(_, _) := ?p in _) = Ok _ => destruct p
  | Ok _ = Ok _ => injection H as H
  | Raise _ = Ok _ => discriminate H
  end.

Lemma for_range_app {S} (body : nat → S → result S) l1 l2 s :
  for_range body (l1 ++ l2) s = for_range body l1 s ≫= for_range body l2.
Proof.
  revert s. induction l1 as [|i l1 IH]; intros s; simpl; [done|].
  destruct (body i s) as [e|s']; simpl; [done | apply IH].
Qed.

Lemma for_range_const {S} (f : S → result S) l1 l2 s :
  length l1 = length l2 →
  for_range (λ _, f) l1 s = for_range (λ _, f) l2 s.
Proof.
  revert l2 s. induction l1 as [|i l1 IH]; intros [|j l2] s Hlen;
    simpl in *; try done.
  destruct (f s) as [e|s']; simpl; [done|]. apply IH. lia.
Qed.

(** ** Tensor operations *)

Lemma tensor_index_Ok {A} (t : list A) i x :
  tensor_index t i = Ok x ↔ t !! i = Some x.
Proof. unfold tensor_index. destruct (t !! i); split; congruence. Qed.

Lemma tensor_index_lt {A} (t : list A) i :
  i < length t → ∃ x, tensor_index t i = Ok x.
Proof.
  intros Hi. destruct (lookup_lt_is_Some_2 t i Hi) as [x Hx].
  exists x. by apply tensor_index_Ok.
Qed.

Lemma cat_without_delete {A} (t : list A) i : cat_without t i = delete i t.
Proof. unfold cat_without. by rewrite Nat.add_1_r, delete_take_drop. Qed.

Lemma py_last_Ok {A} (l : list A) x : py_last l = Ok x ↔ last l = Some x.
Proof. unfold py_last. destruct (last l); split; congruence. Qed.

Lemma py_max_max a b : py_max a b = Z.max a b.
Proof. unfold py_max. destruct (Z.ltb_spec a b); lia. Qed.

Lemma tensor_max_snoc v x m :
  tensor_max v = Ok m → tensor_max (v ++ [x]) = Ok (Z.max m x).
Proof.
  destruct v as [|a v]; simpl; [discriminate|].
  intros [= <-]. by rewrite foldl_snoc.
Qed.

Lemma np_max_tensor_max v m : np_max v = Ok m → tensor_max v = Ok m.
Proof. destruct v; simpl; [discriminate | done]. Qed.

Lemma foldl_max_ge (a : Z) l : (a ≤ foldl Z.max a l)%Z.
Proof.
  revert a. induction l as [|x l IH]; intros a; simpl; [lia|].
  specialize (IH (Z.max a x)). lia.
Qed.

Lemma foldl_max_upper (a : Z) l x :
  (x ≤ a)%Z ∨ x ∈ l → (x ≤ foldl Z.max a l)%Z.
Proof.
  revert a. induction l as [|b l IH]; intros a Hx; simpl.
  - destruct Hx as [Hx|Hx]; [done | by apply elem_of_nil in Hx].
  - apply IH. destruct Hx as [Hx|Hx]; [left; lia|].
    apply elem_of_cons in Hx as [->|Hx]; [left; lia | by right].
Qed.

Lemma foldl_max_elem (a : Z) l : foldl Z.max a l ∈ a :: l.
Proof.
  revert a. induction l as [|b l IH]; intros a; simpl; [left|].
  specialize (IH (Z.max a b)).
  apply elem_of_cons in IH as [IH|IH]; [|by do 2 right].
  rewrite IH. destruct (Z.max_spec a b) as [[_ ->]|[_ ->]]; [right; left | left].
Qed.

Lemma np_max_spec v m : np_max v = Ok m → is_max_of m v.
Proof.
  destruct v as [|a v]; simpl; [discriminate|]. intros [= <-]. split.
  - apply foldl_max_elem.
  - intros x Hx. apply foldl_max_upper.
    apply elem_of_cons in Hx as [->|Hx]; [left; lia | by right].
Qed.

Lemma tensor_max_spec v m : tensor_max v = Ok m → is_max_of m v.
Proof.
  destruct v as [|a v]; simpl; [discriminate|]. intros [= <-].
  by apply (np_max_spec (a :: v)).
Qed.

(** [torch.argmax]: the value at the returned index bounds every value,
    and strictly bounds every value at a lower index. *)
Lemma argmax_from_spec v : ∀ pre best_idx best,
  pre !! best_idx = Some best →
  (∀ j x, pre !! j = Some x → (x ≤ best)%Z) →
  (∀ j x, j < best_idx → pre !! j = Some x → (x < best)%Z) →
  ∃ m, (pre ++ v) !! argmax_from best_idx best (length pre) v = Some m
     ∧ (∀ j x, (pre ++ v) !! j = Some x → (x ≤ m)%Z)
     ∧ (∀ j x, j < argmax_from best_idx best (length pre) v →
               (pre ++ v) !! j = Some x → (x < m)%Z).
Proof.
  induction v as [|a v IH]; intros pre bi b Hb Hle Hlt; simpl.
  - rewrite app_nil_r. eauto.
  - assert (Hlen : S (length pre) = length (pre ++ [a]))
      by (rewrite length_app; simpl; lia).
    rewrite (cons_middle a pre v), app_assoc, Hlen.
    destruct (Z.ltb_spec b a) as [Hba|Hba].
    + apply IH.
      * by rewrite lookup_app_r, Nat.sub_diag.
      * intros j x Hj. apply lookup_app_Some in Hj as [Hj|[_ Hj]].
        -- specialize (Hle _ _ Hj). lia.
        -- apply list_lookup_singleton_Some in Hj as [_ ->]. lia.
      * intros j x Hjl Hj. rewrite lookup_app_l in Hj by done.
        specialize (Hle _ _ Hj). lia.
    + apply IH.
      * rewrite lookup_app_l; [done|]. by eapply lookup_lt_Some.
      * intros j x Hj. apply lookup_app_Some in Hj as [Hj|[_ Hj]].
        -- by eapply Hle.
        -- apply list_lookup_singleton_Some in Hj as [_ ->]. lia.
      * intros j x Hjl Hj. apply lookup_app_Some in Hj as [Hj|[Hge _]].
        -- by eapply Hlt.
        -- apply lookup_lt_Some in Hb. lia.
Qed.

Lemma argmax_spec v i :
  argmax v = Ok i →
  ∃ m, v !! i = Some m
     ∧ (∀ j x, v !! j = Some x → (x ≤ m)%Z)
     ∧ (∀ j x, j < i → v !! j = Some x → (x < m)%Z).
Proof.
  destruct v as [|a v]; simpl; [discriminate|]. intros [= <-].
  apply (argmax_from_spec v [a] 0 a).
  - done.
  - intros j x Hj. apply list_lookup_singleton_Some in Hj as [_ ->]. lia.
  - intros j x Hj. lia.
Qed.

Lemma argmax_nonempty v : v ≠ [] → ∃ i, argmax v = Ok i.
Proof. destruct v; [done | simpl; eauto]. Qed.

(** ** The helper functions *)

Section HelperFacts.
Context {row hyper : Type} `{L : Libs row hyper}.

Lemma acq_loop_seq (acq_func : row → Z) heldout_inputs n : ∀ a evals,
  a + n ≤ length heldout_inputs →
  acq_loop acq_func heldout_inputs (seq a n) evals
  = Ok (evals ++ map (λ x, (x, acq_func x)) (take n (drop a heldout_inputs))).
Proof.
  induction n as [|n IH]; intros a evals Hlen; simpl.
  - by rewrite app_nil_r.
  - destruct (lookup_lt_is_Some_2 heldout_inputs a) as [x Hx]; [lia|].
    unfold tensor_index. rewrite Hx. simpl.
    rewrite IH by lia. f_equal.
    rewrite (drop_S _ _ _ Hx). simpl. by rewrite <- app_assoc.
Qed.

Lemma acq_loop_short (acq_func : row → Z) heldout_inputs n : ∀ a evals,
  a ≤ length heldout_inputs < a + n →
  acq_loop acq_func heldout_inputs (seq a n) evals = Raise IndexError.
Proof.
  induction n as [|n IH]; intros a evals Hlen; simpl; [lia|].
  unfold tensor_index.
  destruct (heldout_inputs !! a) as [x|] eqn:Hx; simpl; [|done].
  apply IH. apply lookup_lt_Some in Hx. lia.
Qed.

(** The acquisition function is evaluated once at every pool point, in
    pool order. *)
Lemma acq_evaluations_pool (acq_func : row → Z) heldout_inputs heldout_outputs :
  length heldout_inputs = length heldout_outputs →
  acq_evaluations acq_func heldout_inputs heldout_outputs
  = Ok (map (λ x, (x, acq_func x)) heldout_inputs).
Proof.
  intros Hlen. unfold acq_evaluations.
  rewrite acq_loop_seq by (simpl; lia).
  by rewrite drop_0, <- Hlen, firstn_all.
Qed.

Lemma acq_evaluations_inv (acq_func : row → Z) heldout_inputs heldout_outputs evals :
  acq_evaluations acq_func heldout_inputs heldout_outputs = Ok evals →
  evals = map (λ x, (x, acq_func x)) (take (length heldout_outputs) heldout_inputs).
Proof.
  unfold acq_evaluations. intros H.
  destruct (decide (length heldout_outputs ≤ length heldout_inputs)) as [Hle|Hgt].
  - rewrite acq_loop_seq in H by (simpl; lia).
    rewrite drop_0 in H. by injection H as <-.
  - rewrite acq_loop_short in H by (simpl; lia). discriminate.
Qed.

Lemma optimize_acqf_inv (acq_func : row → Z) heldout_inputs heldout_outputs
    new_x new_obj heldout_inputs' heldout_outputs' :
  optimize_acqf_and_get_observation acq_func heldout_inputs heldout_outputs
  = Ok (new_x, new_obj, heldout_inputs', heldout_outputs') →
  ∃ best_idx,
    argmax (map acq_func (take (length heldout_outputs) heldout_inputs))
      = Ok best_idx
    ∧ heldout_inputs !! best_idx = Some new_x
    ∧ heldout_outputs !! best_idx = Some new_obj
    ∧ heldout_inputs' = delete best_idx heldout_inputs
    ∧ heldout_outputs' = delete best_idx heldout_outputs.
Proof.
  unfold optimize_acqf_and_get_observation. intros H. inv_ok H.
  apply acq_evaluations_inv in Hx. subst x.
  rewrite <- list_fmap_compose in Hx0.
  apply tensor_index_Ok in Hx1, Hx2.
  rewrite !cat_without_delete in *. exists x0.
  repeat split; try congruence. exact Hx0.
Qed.

Lemma update_random_inv g best_random heldout_inputs heldout_outputs
    best_random' heldout_inputs' heldout_outputs' :
  update_random_observations g best_random heldout_inputs heldout_outputs
  = Ok (best_random', heldout_inputs', heldout_outputs') →
  ∃ index next_random_best prev,
    randperm g (length heldout_outputs) !! 0 = Some index
    ∧ heldout_outputs !! index = Some next_random_best
    ∧ last best_random = Some prev
    ∧ best_random' = best_random ++ [py_max prev next_random_best]
    ∧ heldout_inputs' = delete index heldout_inputs
    ∧ heldout_outputs' = delete index heldout_outputs.
Proof.
  unfold update_random_observations. intros H. inv_ok H.
  apply tensor_index_Ok in Hx, Hx0. apply py_last_Ok in Hx1.
  rewrite !cat_without_delete in *. exists x, x0, x1.
  repeat split; try congruence.
Qed.

Lemma take_rows_length {A} (a : list A) idx r :
  take_rows a idx = Ok r → length r = length idx.
Proof.
  revert r. induction idx as [|i idx IH]; intros r H; simpl in H.
  - by injection H as <-.
  - inv_ok H. subst r. simpl. f_equal. by apply IH.
Qed.

Lemma take_rows_seq idx N r :
  take_rows (seq 0 N) idx = Ok r → r = idx.
Proof.
  revert r. induction idx as [|i idx IH]; intros r H; simpl in H.
  - by injection H as <-.
  - inv_ok H. subst r. apply tensor_index_Ok, lookup_seq in Hx as [-> _].
    f_equal. by apply IH.
Qed.

Lemma train_test_split_inv {A B} (X : list A) (y : list B) q seed r :
  train_test_split X y q seed = Ok r →
  ∃ train test,
    length X = length y
    ∧ split_indices q seed (length X) = Ok (train, test)
    ∧ take_rows X train = Ok r.1.1.1 ∧ take_rows X test = Ok r.1.1.2
    ∧ take_rows y train = Ok r.1.2 ∧ take_rows y test = Ok r.2.
Proof.
  unfold train_test_split.
  destruct (decide _) as [Hlen|]; [|discriminate]. intros H.
  apply bind_Ok in H as ([train test] & Hs & H). inv_ok H. subst r.
  exists train, test. by repeat split.
Qed.

End HelperFacts.

(** ** One iteration of the loop *)

Section LoopFacts.
Context {row hyper : Type} `{L : Libs row hyper}.

Implicit Types s : notebook row hyper.

Lemma initialize_model_fresh train_x train_obj sd (σ : gmap nat (TanimotoGP row hyper)) :
  σ !! (initialize_model train_x train_obj sd σ).1.2 = None.
Proof.
  unfold initialize_model. simpl.
  apply not_elem_of_dom, is_fresh.
Qed.

Lemma initialize_model_mll train_x train_obj sd (σ : gmap nat (TanimotoGP row hyper)) :
  mll_model (initialize_model train_x train_obj sd σ).1.1
  = (initialize_model train_x train_obj sd σ).1.2.
Proof. reflexivity. Qed.

Lemma initialize_model_lookup train_x train_obj sd (σ : gmap nat (TanimotoGP row hyper)) :
  (initialize_model train_x train_obj sd σ).2
    !! (initialize_model train_x train_obj sd σ).1.2
  = Some {| gp_params := default default_hyper sd;
            gp_train_x := train_x; gp_train_y := train_obj |}.
Proof.
  unfold initialize_model. simpl. destruct sd as [sd|]; simpl.
  - rewrite lookup_alter_eq, lookup_insert_eq. done.
  - by rewrite lookup_insert_eq.
Qed.

(** What a successful iteration does to the notebook. *)
Lemma bo_iteration_inv s s' :
  bo_iteration s = Ok s' →
  ∃ gp0 gp best_f best_idx new_x new_obj index next_random_best prev_rnd prev,
    let fitted := fit_hyper (gp_params gp0) (gp_train_x gp0) (gp_train_y gp0) in
    let σ1 := <[mll_model (mll_ei s) := load_state_dict fitted gp0]> (heap s) in
    let im := initialize_model (train_x_ei s ++ [new_x])
                (train_y_ei s ++ [new_obj]) (Some (gp_params gp)) σ1 in
    heap s !! mll_model (mll_ei s) = Some gp0
    ∧ tensor_max (train_y_ei s) = Ok best_f
    ∧ σ1 !! model_ei s = Some gp
    ∧ argmax (map (ExpectedImprovement gp best_f)
                (take (length (heldout_y_ei s)) (heldout_x_ei s))) = Ok best_idx
    ∧ heldout_x_ei s !! best_idx = Some new_x
    ∧ heldout_y_ei s !! best_idx = Some new_obj
    ∧ randperm (rng s) (length (heldout_y_random s)) !! 0 = Some index
    ∧ heldout_y_random s !! index = Some next_random_best
    ∧ last (best_random s) = Some prev_rnd
    ∧ last (best_observed_ei s) = Some prev
    ∧ s' = {| X := X s; y := y s;
              best_observed_all_ei := best_observed_all_ei s;
              best_random_all := best_random_all s;
              best_observed_ei := best_observed_ei s ++ [torch_max new_obj prev];
              best_random := best_random s ++ [py_max prev_rnd next_random_best];
              train_x_ei := train_x_ei s ++ [new_x];
              train_y_ei := train_y_ei s ++ [new_obj];
              heldout_x_ei := delete best_idx (heldout_x_ei s);
              heldout_y_ei := delete best_idx (heldout_y_ei s);
              heldout_x_random := delete index (heldout_x_random s);
              heldout_y_random := delete index (heldout_y_random s);
              mll_ei := im.1.1; model_ei := im.1.2; heap := im.2;
              rng := S (rng s);
              fit_trace := fit_trace s ++ [(gp_params gp0, fitted)];
              best_f_trace := best_f_trace s ++ [best_f] |}.
Proof.
  unfold bo_iteration. intros H.
  apply bind_Ok in H as ([[start fitted] σ1] & Hfit & H).
  apply bind_Ok in H as (best_f & Hbest & H).
  apply bind_Ok in H as (gp & Hgp & H).
  apply bind_Ok in H as ([[[new_x new_obj] hx] hy] & Hopt & H).
  apply bind_Ok in H as ([[br hxr] hyr] & Hrnd & H).
  apply bind_Ok in H as (prev & Hprev & H).
  apply bind_Ok in H as (sd & Hsd & H).
  unfold fit_gpytorch_model in Hfit.
  apply bind_Ok in Hfit as (gp0 & Hgp0 & Hfit). injection Hfit as <- <- <-.
  unfold deref in Hgp0, Hgp.
  destruct (heap s !! mll_model (mll_ei s)) as [gp0'|] eqn:Hl0; [|discriminate].
  injection Hgp0 as ->.
  unfold state_dict, deref in Hsd.
  destruct (_ !! model_ei s) as [gp'|] eqn:Hl1; [|discriminate].
  injection Hgp as ->. simpl in Hsd. injection Hsd as <-.
  apply optimize_acqf_inv in Hopt as (best_idx & Ham & Hx & Hy & -> & ->).
  apply update_random_inv in Hrnd as (index & nrb & prev_rnd & Hp & Hny & Hl & -> & -> & ->).
  apply py_last_Ok in Hprev.
  exists gp0, gp, best_f, best_idx, new_x, new_obj, index, nrb, prev_rnd, prev.
  simpl. repeat (split; [done|]).
  by injection H as <-.
Qed.

Lemma trial_init_inv trial s s0 :
  trial_init trial s = Ok s0 →
  ∃ train test train_x heldout_x train_y heldout_y best,
    let im := initialize_model train_x train_y None (heap s) in
    length (X s) = length (y s)
    ∧ split_indices holdout_set_size trial (length (X s)) = Ok (train, test)
    ∧ take_rows (X s) train = Ok train_x
    ∧ take_rows (X s) test = Ok heldout_x
    ∧ take_rows (y s) train = Ok train_y
    ∧ take_rows (y s) test = Ok heldout_y
    ∧ np_max train_y = Ok best
    ∧ s0 = {| X := X s; y := y s;
              best_observed_all_ei := best_observed_all_ei s;
              best_random_all := best_random_all s;
              best_observed_ei := [best];
              best_random := [best];
              train_x_ei := train_x; train_y_ei := train_y;
              heldout_x_ei := heldout_x; heldout_y_ei := heldout_y;
              heldout_x_random := heldout_x; heldout_y_random := heldout_y;
              mll_ei := im.1.1; model_ei := im.1.2; heap := im.2;
              rng := rng s;
              fit_trace := fit_trace s; best_f_trace := best_f_trace s |}.
Proof.
  unfold trial_init. intros H.
  apply bind_Ok in H as ([[[train_x heldout_x] train_y] heldout_y] & Hsp & H).
  apply bind_Ok in H as (best & Hbest & H).
  apply train_test_split_inv in Hsp as (train & test & Hlen & Hs & H1 & H2 & H3 & H4).
  simpl in *.
  exists train, test, train_x, heldout_x, train_y, heldout_y, best.
  repeat (split; [done|]).
  by injection H as <-.
Qed.

Lemma bo_loop_0 s : bo_loop 0 s = Ok s.
Proof. reflexivity. Qed.

Lemma bo_loop_S_r k s :
  bo_loop (S k) s = bo_loop k s ≫= bo_iteration.
Proof.
  unfold bo_loop. rewrite seq_S, for_range_app. simpl.
  destruct (for_range _ _ s) as [e|sk]; simpl; [done|].
  by destruct (bo_iteration sk).
Qed.

Lemma bo_loop_S_l k s :
  bo_loop (S k) s = bo_iteration s ≫= bo_loop k.
Proof.
  unfold bo_loop. simpl. destruct (bo_iteration s) as [e|s1]; simpl; [done|].
  apply for_range_const. by rewrite !length_seq.
Qed.

Lemma bo_loop_add j k s :
  bo_loop (j + k) s = bo_loop j s ≫= bo_loop k.
Proof.
  revert s. induction j as [|j IH]; intros s; [done|].
  rewrite Nat.add_succ_l, !bo_loop_S_l.
  destruct (bo_iteration s) as [e|s1]; simpl; [done | apply IH].
Qed.

End LoopFacts.

(** ** The pools *)

Section PoolFacts.
Context {row hyper : Type} `{L : Libs row hyper}.

Implicit Types s : notebook row hyper.

Lemma trial_init_pools trial s s0 :
  trial_init trial s = Ok s0 → pools_ok s0 0 s0.
Proof.
  intros H.
  apply trial_init_inv in H
    as (train & test & tx & hx & ty & hy & best & Hlen & Hs & H1 & H2 & H3 & H4 & Hb & ->).
  apply take_rows_length in H1, H2, H3, H4.
  constructor; simpl; try done; try lia.
Qed.

Lemma bo_iteration_pools s0 k s s' :
  pools_ok s0 k s → bo_iteration s = Ok s' → pools_ok s0 (S k) s'.
Proof.
  intros [Hx Hy Hlt Hlg Hlr Hsg Hsr Hzg Hzr] H.
  apply bo_iteration_inv in H
    as (gp0 & gp & best_f & i & x & lbl & j & rl & pr & p
        & _ & _ & _ & _ & Hix & Hiy & _ & Hjy & _ & _ & ->).
  assert (Hjx : is_Some (heldout_x_random s !! j)).
  { apply lookup_lt_is_Some. rewrite Hlr. by eapply lookup_lt_Some. }
  constructor; simpl.
  - rewrite <- app_assoc. simpl. by rewrite <- (delete_Permutation _ _ _ Hix).
  - rewrite <- app_assoc. simpl. by rewrite <- (delete_Permutation _ _ _ Hiy).
  - rewrite !length_app. simpl. lia.
  - rewrite !length_delete by eauto. lia.
  - rewrite !length_delete by eauto. lia.
  - etrans; [apply sublist_delete | done].
  - etrans; [apply sublist_delete | done].
  - rewrite length_delete by eauto. apply lookup_lt_Some in Hix. lia.
  - rewrite length_delete by eauto. apply lookup_lt_is_Some in Hjx. lia.
Qed.

Lemma bo_loop_pools k : ∀ s0 s,
  pools_ok s0 0 s0 → bo_loop k s0 = Ok s → pools_ok s0 k s.
Proof.
  induction k as [|k IH]; intros s0 s H0 H.
  - by injection H as <-.
  - rewrite bo_loop_S_r in H. apply bind_Ok in H as (sk & Hk & H).
    eapply bo_iteration_pools; [|done]. by apply IH.
Qed.

(** A pool only shrinks: what is in a later pool was in every earlier
    one. *)
Lemma bo_loop_pool_sublist j : ∀ s sj,
  bo_loop j s = Ok sj →
  heldout_x_ei sj `sublist_of` heldout_x_ei s
  ∧ heldout_x_random sj `sublist_of` heldout_x_random s.
Proof.
  induction j as [|j IH]; intros s sj H.
  - by injection H as <-.
  - rewrite bo_loop_S_r in H. apply bind_Ok in H as (sk & Hk & H).
    destruct (IH _ _ Hk) as [Hg Hr].
    apply bo_iteration_inv in H
      as (gp0 & gp & best_f & i & x & lbl & j' & rl & pr & p
          & _ & _ & _ & _ & _ & _ & _ & _ & _ & _ & ->).
    simpl. split; (etrans; [apply sublist_delete | done]).
Qed.

End PoolFacts.

Lemma perm_partition N (train heldout : list nat) :
  train ++ heldout ≡ₚ seq 0 N → partition_of N train heldout.
Proof.
  intros HP.
  assert (Hnd : NoDup (train ++ heldout)) by (rewrite HP; apply NoDup_seq).
  apply NoDup_app in Hnd as (Ht & Hd & Hh).
  constructor; try done.
  - intros i. rewrite <- elem_of_app, HP, elem_of_seq. lia.
  - rewrite <- length_app, HP. apply length_seq.
Qed.

Lemma list_difference_sublist_perm (l k : list nat) :
  NoDup l → k `sublist_of` l → list_difference l k ++ k ≡ₚ l.
Proof.
  intros Hl Hk. apply NoDup_Permutation; [|done|].
  - apply NoDup_app. split; [by apply NoDup_list_difference|]. split.
    + intros x Hx. by apply list_elem_of_difference in Hx as [_ Hx].
    + by eapply sublist_NoDup.
  - intros x. rewrite elem_of_app, list_elem_of_difference. split.
    + intros [[Hx _]|Hx]; [done|]. by eapply elem_of_sublist.
    + intros Hx. destruct (decide (x ∈ k)); auto.
Qed.

(** The split of the small instance draws a partition of the indices. *)
Lemma demo_split_partition q seed n train test :
  Demo.split q seed n = Ok (train, test) → train ++ test ≡ₚ seq 0 n.
Proof.
  unfold Demo.split.
  set (n_test := Z.to_nat _). destruct (decide _) as [|Hne]; [discriminate|].
  intros [= <- <-].
  set (perm := rotate seed (seq 0 n)).
  assert (Hlen : length perm = n) by (unfold perm; by rewrite length_rotate, length_seq).
  rewrite take_ge by (rewrite length_drop; lia).
  rewrite Permutation_app_comm, take_drop.
  unfold perm, rotate. rewrite Permutation_app_comm. by rewrite take_drop.
Qed.

(** On a dataset of indices the split is the index draw itself. *)
Lemma trial_init_index_split {hyper} `{L : Libs nat hyper} (N trial : nat)
    (s s0 : notebook nat hyper) :
  X s = seq 0 N →
  (∀ train test, split_indices holdout_set_size trial N = Ok (train, test) →
                 train ++ test ≡ₚ seq 0 N) →
  trial_init trial s = Ok s0 →
  train_x_ei s0 ++ heldout_x_random s0 ≡ₚ seq 0 N
  ∧ heldout_x_ei s0 = heldout_x_random s0.
Proof.
  intros HX Hsplit Hinit.
  apply trial_init_inv in Hinit
    as (train & test & tx & hx & ty & hy & best & _ & Hs & H1 & H2 & _ & _ & _ & ->).
  rewrite HX in *. rewrite length_seq in Hs.
  apply take_rows_seq in H1, H2. subst tx hx. simpl. split; [|done].
  by apply Hsplit.
Qed.

(** C1.  Candidates are identified by their dataset index.  After any
    number of iterations of any trial, the train set and the pool of the
    GP policy partition the index set; so do the points observed by the
    random policy and its own pool, and those observed points number
    the initial train set plus one per iteration; a candidate that a
    selection removes from a pool is in no later state of that pool. *)
Theorem pool_train_partition {hyper} `{L : Libs nat hyper} (N trial k : nat)
    (s s0 sk : notebook nat hyper) :
  X s = seq 0 N →
  (∀ train test, split_indices holdout_set_size trial N = Ok (train, test) →
                 train ++ test ≡ₚ seq 0 N) →
  trial_init trial s = Ok s0 →
  bo_loop k s0 = Ok sk →
  partition_of N (train_x_ei sk) (heldout_x_ei sk)
  ∧ partition_of N (observed_random s0 sk) (heldout_x_random sk)
  ∧ length (observed_random s0 sk) = length (train_x_ei s0) + k
  ∧ ∀ sk1 j sj (c : nat),
      bo_iteration sk = Ok sk1 → bo_loop j sk1 = Ok sj →
      (c ∈ heldout_x_ei sk → c ∉ heldout_x_ei sk1 → c ∉ heldout_x_ei sj)
      ∧ (c ∈ heldout_x_random sk → c ∉ heldout_x_random sk1 →
         c ∉ heldout_x_random sj).
Proof.
  intros HX Hsplit Hinit Hloop.
  pose proof (trial_init_pools _ _ _ Hinit) as H0.
  pose proof (bo_loop_pools _ _ _ H0 Hloop) as [Hx _ _ _ _ _ Hsr _ Hzr].
  destruct (trial_init_index_split _ _ _ _ HX Hsplit Hinit) as [Hpart0 Heq].
  assert (Hnd : NoDup (heldout_x_random s0)).
  { assert (Hnd : NoDup (train_x_ei s0 ++ heldout_x_random s0))
      by (rewrite Hpart0; apply NoDup_seq).
    by apply NoDup_app in Hnd as (_ & _ & Hnd). }
  pose proof (list_difference_sublist_perm _ _ Hnd Hsr) as Hdiff.
  split; [|split; [|split]].
  - apply perm_partition. by rewrite Hx, Heq.
  - apply perm_partition. unfold observed_random.
    by rewrite <- app_assoc, Hdiff.
  - unfold observed_random. rewrite length_app. f_equal.
    apply Permutation_length in Hdiff. rewrite length_app in Hdiff. lia.
  - intros sk1 j sj c Hstep Hlater.
    destruct (bo_loop_pool_sublist _ _ _ Hlater) as [Hg Hr].
    split; intros _ Hout Hin; apply Hout; by eapply elem_of_sublist.
Qed.

Lemma pool_train_partition_witness :
  partition_of Demo.N (train_x_ei Demo.s3) (heldout_x_ei Demo.s3)
  ∧ partition_of Demo.N (observed_random Demo.s0 Demo.s3)
      (heldout_x_random Demo.s3)
  ∧ length (observed_random Demo.s0 Demo.s3) = length (train_x_ei Demo.s0) + 3
  ∧ ∀ sk1 j sj (c : nat),
      bo_iteration Demo.s3 = Ok sk1 → bo_loop j sk1 = Ok sj →
      (c ∈ heldout_x_ei Demo.s3 → c ∉ heldout_x_ei sk1 → c ∉ heldout_x_ei sj)
      ∧ (c ∈ heldout_x_random Demo.s3 → c ∉ heldout_x_random sk1 →
         c ∉ heldout_x_random sj).
Proof.
  apply (pool_train_partition Demo.N 1 3 Demo.nb Demo.s0 Demo.s3).
  - reflexivity.
  - intros train test H. vm_compute in H. injection H as <- <-.
    apply (bool_decide_unpack _). vm_compute. exact I.
  - vm_compute. reflexivity.
  - vm_compute. reflexivity.
Defined.

(** ** The best-so-far traces *)

Lemma running_best_init b : running_best [b] [].
Proof. split; [done|]. intros i prev lbl _ H. by destruct i. Qed.

Lemma running_best_snoc trace obs prev lbl :
  running_best trace obs → last trace = Some prev →
  running_best (trace ++ [Z.max prev lbl]) (obs ++ [lbl]).
Proof.
  intros [Hlen Hstep] Hlast. split.
  - rewrite !length_app. simpl. lia.
  - intros i a l Ha Hl.
    rewrite last_lookup, Hlen in Hlast. simpl in Hlast.
    apply lookup_app_Some in Hl as [Hl|[Hge Hl]].
    + pose proof (lookup_lt_Some _ _ _ Hl) as Hi.
      rewrite lookup_app_l in Ha by lia.
      rewrite lookup_app_l by lia. by eapply Hstep.
    + apply list_lookup_singleton_Some in Hl as [Hi ->].
      assert (i = length obs) as -> by lia.
      rewrite lookup_app_l in Ha by lia.
      rewrite lookup_app_r by lia.
      rewrite Hlen, Nat.sub_diag. simpl. congruence.
Qed.

Lemma running_best_non_decreasing trace obs :
  running_best trace obs → non_decreasing trace.
Proof.
  intros [Hlen Hstep] i a b Ha Hb.
  apply lookup_lt_Some in Hb as Hi.
  destruct (lookup_lt_is_Some_2 obs i) as [lbl Hl]; [lia|].
  rewrite (Hstep _ _ _ Ha Hl) in Hb. injection Hb as <-. lia.
Qed.

Section TraceFacts.
Context {row hyper : Type} `{L : Libs row hyper}.

Implicit Types s : notebook row hyper.

Lemma bo_loop_traces k : ∀ s0 s,
  running_best (best_observed_ei s0) [] →
  running_best (best_random s0) [] →
  bo_loop k s0 = Ok s →
  ∃ obs_ei obs_rnd,
    length obs_ei = k ∧ length obs_rnd = k
    ∧ train_y_ei s = train_y_ei s0 ++ obs_ei
    ∧ obs_rnd ++ heldout_y_random s ≡ₚ heldout_y_random s0
    ∧ running_best (best_observed_ei s) obs_ei
    ∧ running_best (best_random s) obs_rnd.
Proof.
  induction k as [|k IH]; intros s0 s Hg Hr H.
  - injection H as <-. exists [], []. rewrite app_nil_r. by split_and!.
  - rewrite bo_loop_S_r in H. apply bind_Ok in H as (sk & Hk & H).
    destruct (IH _ _ Hg Hr Hk) as (og & or & Hlg & Hlr & Hty & Hp & Htg & Htr).
    apply bo_iteration_inv in H
      as (gp0 & gp & best_f & i & x & lbl & j & rl & pr & p
          & _ & _ & _ & _ & _ & _ & _ & Hjy & Hlastr & Hlastg & ->).
    exists (og ++ [lbl]), (or ++ [rl]). simpl.
    rewrite !length_app. simpl. split_and!; try lia.
    + by rewrite Hty, <- app_assoc.
    + rewrite <- app_assoc. simpl.
      by rewrite <- (delete_Permutation _ _ _ Hjy).
    + unfold torch_max. rewrite Z.max_comm.
      by apply running_best_snoc.
    + rewrite py_max_max. by apply running_best_snoc.
Qed.

End TraceFacts.

(** C2.  In every trial and after any number of iterations, each of the
    two best-so-far traces is non-decreasing, and every entry after the
    first is the maximum of the entry before it and the label observed in
    that iteration: for the GP policy the labels appended to its train
    set, for the random policy the labels that left its pool. *)
Theorem best_observed_monotone {row hyper} `{L : Libs row hyper}
    (trial k : nat) (s s0 sk : notebook row hyper) :
  trial_init trial s = Ok s0 →
  bo_loop k s0 = Ok sk →
  ∃ obs_ei obs_rnd,
    length obs_ei = k ∧ length obs_rnd = k
    ∧ train_y_ei sk = train_y_ei s0 ++ obs_ei
    ∧ obs_rnd ++ heldout_y_random sk ≡ₚ heldout_y_random s0
    ∧ running_best (best_observed_ei sk) obs_ei
    ∧ running_best (best_random sk) obs_rnd
    ∧ non_decreasing (best_observed_ei sk)
    ∧ non_decreasing (best_random sk).
Proof.
  intros Hinit Hloop.
  assert (H0 : running_best (best_observed_ei s0) []
               ∧ running_best (best_random s0) []).
  { apply trial_init_inv in Hinit
      as (train & test & tx & hx & ty & hy & best & _ & _ & _ & _ & _ & _ & _ & ->).
    simpl. split; apply running_best_init. }
  destruct H0 as [Hg Hr].
  destruct (bo_loop_traces _ _ _ Hg Hr Hloop)
    as (og & or & Hlg & Hlr & Hty & Hp & Htg & Htr).
  exists og, or. split_and!; try done.
  all: by eapply running_best_non_decreasing.
Qed.

Lemma best_observed_monotone_witness :
  ∃ obs_ei obs_rnd,
    length obs_ei = 3 ∧ length obs_rnd = 3
    ∧ train_y_ei Demo.s3 = train_y_ei Demo.s0 ++ obs_ei
    ∧ obs_rnd ++ heldout_y_random Demo.s3 ≡ₚ heldout_y_random Demo.s0
    ∧ running_best (best_observed_ei Demo.s3) obs_ei
    ∧ running_best (best_random Demo.s3) obs_rnd
    ∧ non_decreasing (best_observed_ei Demo.s3)
    ∧ non_decreasing (best_random Demo.s3).
Proof.
  apply (best_observed_monotone 1 3 Demo.nb Demo.s0 Demo.s3).
  - vm_compute. reflexivity.
  - vm_compute. reflexivity.
Defined.

(** ** Selection *)

Lemma removes_at_pairing {A B} idx (x : A) (lbl : B) inputs outputs inputs' outputs' :
  length inputs = length outputs →
  removes_at idx x lbl inputs outputs inputs' outputs' →
  zip inputs' outputs' = delete idx (zip inputs outputs)
  ∧ pairing_kept inputs outputs inputs' outputs'.
Proof.
  intros Hlen (Hx & Hl & -> & ->).
  assert (Hzip : zip (delete idx inputs) (delete idx outputs)
                 = delete idx (zip inputs outputs)).
  { clear. revert idx outputs.
    induction inputs as [|a inputs IH]; intros [|idx] [|b outputs];
      simpl; try done.
    - by destruct inputs.
    - f_equal. apply IH. }
  split; [done|]. split.
  - rewrite !length_delete by eauto. lia.
  - intros i a b Ha Hb.
    assert (Hz : zip (delete idx inputs) (delete idx outputs) !! i = Some (a, b)).
    { by apply lookup_zip_Some. }
    rewrite Hzip in Hz.
    apply list_elem_of_lookup_2, list_elem_of_delete_inv in Hz.
    apply list_elem_of_lookup_1 in Hz as [j Hj]. exists j.
    by apply lookup_zip_Some in Hj.
Qed.

(** The claim of the specification fails on an empty pool: the error
    raised is not [EmptyPoolError]. *)
Lemma empty_pool_error_class :
  optimize_acqf_and_get_observation (λ _ : nat, 0%Z) [] []
    ≠ Raise EmptyPoolError
  ∧ update_random_observations 0 [0%Z] ([] : list nat) []
    ≠ Raise EmptyPoolError.
Proof. split; vm_compute; discriminate. Qed.

(** C3, amended.  On a pool without labels, whatever the inputs, both
    selection operations raise [IndexError], the error of the library
    call that meets the empty tensor ([torch.argmax] for the discrete
    optimiser, indexing for the random policy); neither returns a
    point. *)
Theorem empty_pool_raises {row hyper} `{L : Libs row hyper}
    (acq_func : row → Z) (g : nat) (best_random : list Z)
    (heldout_inputs : list row) :
  optimize_acqf_and_get_observation acq_func heldout_inputs []
    = Raise IndexError
  ∧ update_random_observations g best_random heldout_inputs []
    = Raise IndexError.
Proof.
  split; [done|].
  unfold update_random_observations, tensor_index. simpl.
  by destruct (randperm g 0 !! 0).
Qed.

(** C4.  On a pool that is not empty, the acquisition function is
    evaluated exactly once at every point of the pool, in pool order, and
    the optimiser returns a point of maximal acquisition value, at the
    lowest pool index that attains the maximum, together with its label
    and the pool without that position. *)
Theorem optimizer_selects_first_argmax {row hyper} `{L : Libs row hyper}
    (acq_func : row → Z) (heldout_inputs : list row) (heldout_outputs : list Z) :
  length heldout_inputs = length heldout_outputs →
  heldout_inputs ≠ [] →
  acq_evaluations acq_func heldout_inputs heldout_outputs
    = Ok (map (λ x, (x, acq_func x)) heldout_inputs)
  ∧ ∃ best_idx new_x new_obj,
      optimize_acqf_and_get_observation acq_func heldout_inputs heldout_outputs
        = Ok (new_x, new_obj, delete best_idx heldout_inputs,
              delete best_idx heldout_outputs)
      ∧ heldout_inputs !! best_idx = Some new_x
      ∧ heldout_outputs !! best_idx = Some new_obj
      ∧ (∀ x, x ∈ heldout_inputs → (acq_func x ≤ acq_func new_x)%Z)
      ∧ (∀ j x, j < best_idx → heldout_inputs !! j = Some x →
                (acq_func x < acq_func new_x)%Z).
Proof.
  intros Hlen Hne.
  pose proof (acq_evaluations_pool acq_func _ _ Hlen) as Hev.
  split; [done|].
  unfold optimize_acqf_and_get_observation. rewrite Hev. simpl.
  rewrite <- list_fmap_compose.
  change (snd ∘ (λ x, (x, acq_func x))) with acq_func.
  destruct (argmax_nonempty (acq_func <$> heldout_inputs)) as [i Hi].
  { by destruct heldout_inputs. }
  rewrite Hi. simpl.
  apply argmax_spec in Hi as (m & Hm & Hle & Hlt).
  apply list_lookup_fmap_Some in Hm as (x & -> & Hx).
  destruct (lookup_lt_is_Some_2 heldout_outputs i) as [lbl Hl].
  { rewrite <- Hlen. by eapply lookup_lt_Some. }
  exists i, x, lbl. unfold tensor_index. rewrite Hx, Hl. simpl.
  rewrite !cat_without_delete. split_and!; try done.
  - intros x' Hx'. apply list_elem_of_lookup_1 in Hx' as [j Hj].
    apply (Hle j). by rewrite list_lookup_fmap, Hj.
  - intros j x' Hji Hj. apply (Hlt j); [done|].
    by rewrite list_lookup_fmap, Hj.
Qed.

Lemma optimizer_selects_first_argmax_witness :
  acq_evaluations (λ x : nat, Z.of_nat (x mod 3)) [4; 5; 6; 8; 2] [1; 2; 3; 4; 5]%Z
    = Ok (map (λ x, (x, Z.of_nat (x mod 3))) [4; 5; 6; 8; 2])
  ∧ ∃ best_idx new_x new_obj,
      optimize_acqf_and_get_observation (λ x : nat, Z.of_nat (x mod 3))
          [4; 5; 6; 8; 2] [1; 2; 3; 4; 5]%Z
        = Ok (new_x, new_obj, delete best_idx [4; 5; 6; 8; 2],
              delete best_idx [1; 2; 3; 4; 5]%Z)
      ∧ [4; 5; 6; 8; 2] !! best_idx = Some new_x
      ∧ [1; 2; 3; 4; 5]%Z !! best_idx = Some new_obj
      ∧ (∀ x, x ∈ [4; 5; 6; 8; 2] →
              (Z.of_nat (x mod 3) ≤ Z.of_nat (new_x mod 3))%Z)
      ∧ (∀ j x, j < best_idx → [4; 5; 6; 8; 2] !! j = Some x →
                (Z.of_nat (x mod 3) < Z.of_nat (new_x mod 3))%Z).
Proof.
  apply (optimizer_selects_first_argmax (λ x : nat, Z.of_nat (x mod 3))
           [4; 5; 6; 8; 2] [1; 2; 3; 4; 5]%Z).
  - reflexivity.
  - discriminate.
Defined.

(** The tie of the example is broken towards the lower index: the points
    at positions 1 and 3 both score 2, position 1 is selected. *)
Example optimizer_tie :
  optimize_acqf_and_get_observation (λ x : nat, Z.of_nat (x mod 3))
      [4; 5; 6; 8; 2] [1; 2; 3; 4; 5]%Z
  = Ok (5, 2%Z, [4; 6; 8; 2], [1; 3; 4; 5]%Z).
Proof. reflexivity. Qed.

(** C10.  A selection removes one position from both tensors of the
    pool: the optimiser returns the point and the label of that position,
    the random policy feeds the label of that position to its running
    best; in the pool that remains every point still carries its own
    label. *)
Theorem selection_keeps_pairing {row hyper} `{L : Libs row hyper}
    (heldout_inputs : list row) (heldout_outputs : list Z) :
  length heldout_inputs = length heldout_outputs →
  (∀ acq_func new_x new_obj inputs' outputs',
     optimize_acqf_and_get_observation acq_func heldout_inputs heldout_outputs
       = Ok (new_x, new_obj, inputs', outputs') →
     ∃ idx,
       removes_at idx new_x new_obj heldout_inputs heldout_outputs inputs' outputs'
       ∧ zip inputs' outputs' = delete idx (zip heldout_inputs heldout_outputs)
       ∧ pairing_kept heldout_inputs heldout_outputs inputs' outputs')
  ∧ (∀ g best_random best_random' inputs' outputs',
       update_random_observations g best_random heldout_inputs heldout_outputs
         = Ok (best_random', inputs', outputs') →
       ∃ idx x lbl prev,
         removes_at idx x lbl heldout_inputs heldout_outputs inputs' outputs'
         ∧ last best_random = Some prev
         ∧ best_random' = best_random ++ [Z.max prev lbl]
         ∧ zip inputs' outputs' = delete idx (zip heldout_inputs heldout_outputs)
         ∧ pairing_kept heldout_inputs heldout_outputs inputs' outputs').
Proof.
  intros Hlen. split.
  - intros acq_func new_x new_obj inputs' outputs' H.
    apply optimize_acqf_inv in H as (idx & _ & Hx & Hl & -> & ->).
    exists idx.
    assert (Hr : removes_at idx new_x new_obj heldout_inputs heldout_outputs
                   (delete idx heldout_inputs) (delete idx heldout_outputs))
      by done.
    destruct (removes_at_pairing _ _ _ _ _ _ _ Hlen Hr). done.
  - intros g br br' inputs' outputs' H.
    apply update_random_inv in H as (idx & lbl & prev & _ & Hl & Hp & -> & -> & ->).
    destruct (lookup_lt_is_Some_2 heldout_inputs idx) as [x Hx].
    { rewrite Hlen. by eapply lookup_lt_Some. }
    exists idx, x, lbl, prev.
    assert (Hr : removes_at idx x lbl heldout_inputs heldout_outputs
                   (delete idx heldout_inputs) (delete idx heldout_outputs))
      by done.
    destruct (removes_at_pairing _ _ _ _ _ _ _ Hlen Hr).
    rewrite py_max_max. done.
Qed.

Lemma selection_keeps_pairing_witness :
  (∃ idx,
     removes_at idx 5 2%Z [4; 5; 6; 8; 2] [1; 2; 3; 4; 5]%Z
       [4; 6; 8; 2] [1; 3; 4; 5]%Z
     ∧ zip [4; 6; 8; 2] [1; 3; 4; 5]%Z
       = delete idx (zip [4; 5; 6; 8; 2] [1; 2; 3; 4; 5]%Z)
     ∧ pairing_kept [4; 5; 6; 8; 2] [1; 2; 3; 4; 5]%Z
         [4; 6; 8; 2] [1; 3; 4; 5]%Z)
  ∧ (∃ idx x lbl prev,
       removes_at idx x lbl [4; 5; 6; 8; 2] [1; 2; 3; 4; 5]%Z
         [4; 5; 6; 2] [1; 2; 3; 5]%Z
       ∧ last [3%Z] = Some prev
       ∧ [3; 4]%Z = [3%Z] ++ [Z.max prev lbl]
       ∧ zip [4; 5; 6; 2] [1; 2; 3; 5]%Z
         = delete idx (zip [4; 5; 6; 8; 2] [1; 2; 3; 4; 5]%Z)
       ∧ pairing_kept [4; 5; 6; 8; 2] [1; 2; 3; 4; 5]%Z
           [4; 5; 6; 2] [1; 2; 3; 5]%Z).
Proof.
  destruct (selection_keeps_pairing (L := Demo.libs)
              [4; 5; 6; 8; 2] [1; 2; 3; 4; 5]%Z eq_refl) as [Hopt Hrnd].
  split.
  - apply (Hopt (λ x : nat, Z.of_nat (x mod 3))). reflexivity.
  - apply (Hrnd 0 [3%Z]). reflexivity.
Defined.

(** ** The shape of a trial *)

Lemma for_range_inv {S} (P : S → Prop) (body : nat → S → result S) l : ∀ s s',
  (∀ i s s', P s → body i s = Ok s' → P s') →
  P s → for_range body l s = Ok s' → P s'.
Proof.
  induction l as [|i l IH]; intros s s' Hstep Hs H; simpl in H.
  - by injection H as <-.
  - apply bind_Ok in H as (s1 & H1 & H). eauto.
Qed.

Lemma take_snoc_last {A} (l : list A) k v :
  length l = S k → last l = Some v → take k l ++ [v] = l.
Proof.
  intros Hlen Hlast. rewrite last_lookup, Hlen in Hlast. simpl in Hlast.
  rewrite <- (take_drop k l) at 2. f_equal.
  rewrite (drop_S _ _ _ Hlast), drop_ge by lia. done.
Qed.

Section TrialFacts.
Context {row hyper : Type} `{L : Libs row hyper}.

Implicit Types s : notebook row hyper.

Lemma bo_loop_trace_shape k : ∀ s0 s b,
  best_observed_ei s0 = [b] → best_random s0 = [b] →
  bo_loop k s0 = Ok s →
  length (best_observed_ei s) = k + 1 ∧ length (best_random s) = k + 1
  ∧ best_observed_ei s !! 0 = Some b ∧ best_random s !! 0 = Some b.
Proof.
  induction k as [|k IH]; intros s0 s b Hg Hr H.
  - injection H as <-. by rewrite Hg, Hr.
  - rewrite bo_loop_S_r in H. apply bind_Ok in H as (sk & Hk & H).
    destruct (IH _ _ _ Hg Hr Hk) as (Hlg & Hlr & Hhg & Hhr).
    apply bo_iteration_inv in H
      as (gp0 & gp & best_f & i & x & lbl & j & rl & pr & p
          & _ & _ & _ & _ & _ & _ & _ & _ & _ & _ & ->).
    simpl. rewrite !length_app, Hlg, Hlr. simpl.
    split_and!; try lia.
    + rewrite lookup_app_l; [done | lia].
    + rewrite lookup_app_l; [done | lia].
Qed.

(** A completed trial is its start, the loop, and the two appends. *)
Lemma trial_body_inv N_ITERS trial s s' :
  trial_body N_ITERS trial s = Ok s' →
  ∃ s0 s1,
    trial_init trial s = Ok s0 ∧ bo_loop N_ITERS s0 = Ok s1
    ∧ best_observed_all_ei s' = best_observed_all_ei s ++ [best_observed_ei s1]
    ∧ best_random_all s' = best_random_all s ++ [best_random s1].
Proof.
  unfold trial_body. intros H.
  apply bind_Ok in H as (s0 & Hinit & H).
  apply bind_Ok in H as (s1 & Hloop & H). injection H as <-.
  exists s0, s1. split; [done|]. split; [done|].
  assert (Hall : best_observed_all_ei s1 = best_observed_all_ei s
                 ∧ best_random_all s1 = best_random_all s).
  { apply (for_range_inv
             (λ t, best_observed_all_ei t = best_observed_all_ei s
                   ∧ best_random_all t = best_random_all s)) in Hloop; [done| |].
    - intros _ t t' Ht Hstep.
      apply bo_iteration_inv in Hstep
        as (gp0 & gp & best_f & i & x & lbl & j & rl & pr & p
            & _ & _ & _ & _ & _ & _ & _ & _ & _ & _ & ->). done.
    - apply trial_init_inv in Hinit
        as (train & test & tx & hx & ty & hy & best
            & _ & _ & _ & _ & _ & _ & _ & ->). done. }
  destruct Hall as [Hae Har]. simpl. by rewrite Hae, Har.
Qed.

Lemma trial_init_traces trial s s0 :
  trial_init trial s = Ok s0 →
  ∃ b, best_observed_ei s0 = [b] ∧ best_random s0 = [b]
       ∧ np_max (train_y_ei s0) = Ok b.
Proof.
  intros H. apply trial_init_inv in H
    as (train & test & tx & hx & ty & hy & b & _ & _ & _ & _ & _ & _ & Hb & ->).
  by exists b.
Qed.

(** The value [best_f] an iteration passes to the acquisition function is
    the last entry of the trace of the GP policy. *)
Lemma bo_loop_best_f k : ∀ s0 s b,
  best_observed_ei s0 = [b] → tensor_max (train_y_ei s0) = Ok b →
  bo_loop k s0 = Ok s →
  length (best_observed_ei s) = S k
  ∧ best_f_trace s = best_f_trace s0 ++ take k (best_observed_ei s)
  ∧ ∃ v, tensor_max (train_y_ei s) = Ok v ∧ last (best_observed_ei s) = Some v.
Proof.
  induction k as [|k IH]; intros s0 s b Hg Hm H.
  - injection H as <-. rewrite Hg. simpl. rewrite app_nil_r.
    split_and!; try done. by exists b.
  - rewrite bo_loop_S_r in H. apply bind_Ok in H as (sk & Hk & H).
    destruct (IH _ _ _ Hg Hm Hk) as (Hlen & Htr & v & Hv & Hlast).
    apply bo_iteration_inv in H
      as (gp0 & gp & best_f & i & x & lbl & j & rl & pr & p
          & _ & Hbf & _ & _ & _ & _ & _ & _ & _ & Hp & ->).
    simpl. rewrite Hv in Hbf. injection Hbf as <-.
    rewrite Hlast in Hp. injection Hp as <-.
    rewrite length_app. simpl. split; [lia|split].
    + rewrite Htr, <- app_assoc. f_equal.
      rewrite take_app_le by lia. rewrite (take_ge _ (S k)) by lia.
      by apply take_snoc_last.
    + exists (torch_max lbl v). rewrite last_snoc.
      unfold torch_max. rewrite Z.max_comm.
      split; [by apply tensor_max_snoc | done].
Qed.

Lemma warm_started_snoc (fits : list (hyper * hyper)) fitted :
  warm_started default_hyper fits →
  warm_started default_hyper (fits ++ [(next_start fits, fitted)]).
Proof.
  intros [H0 Hc]. split.
  - intros fit Hf. destruct fits as [|f fits]; simpl in *.
    + by injection Hf as <-.
    + apply H0. done.
  - intros i fit fit' Hi HSi.
    apply lookup_app_Some in HSi as [HSi|[Hge HSi]].
    + rewrite lookup_app_l in Hi by (apply lookup_lt_Some in HSi; lia).
      by eapply Hc.
    + apply list_lookup_singleton_Some in HSi as [Hi' <-]. simpl.
      assert (S i = length fits) as Hlen by lia.
      rewrite lookup_app_l in Hi by lia.
      unfold next_start. rewrite last_lookup, <- Hlen. simpl. by rewrite Hi.
Qed.

Lemma bo_loop_fits k : ∀ s0 s,
  mll_model (mll_ei s0) = model_ei s0 →
  (∃ gp, heap s0 !! model_ei s0 = Some gp ∧ gp_params gp = default_hyper) →
  bo_loop k s0 = Ok s →
  ∃ fits,
    fit_trace s = fit_trace s0 ++ fits ∧ length fits = k
    ∧ warm_started default_hyper fits
    ∧ mll_model (mll_ei s) = model_ei s
    ∧ ∃ gp, heap s !! model_ei s = Some gp ∧ gp_params gp = next_start fits.
Proof.
  induction k as [|k IH]; intros s0 s Hal Hgp H.
  - injection H as <-. exists []. rewrite app_nil_r.
    split_and!; try done.
  - rewrite bo_loop_S_r in H. apply bind_Ok in H as (sk & Hk & H).
    destruct (IH _ _ Hal Hgp Hk) as (fits & Htr & Hlen & Hw & Hal' & gp & Hl & Hp).
    apply bo_iteration_inv in H
      as (gp0 & gp1 & best_f & i & x & lbl & j & rl & pr & p
          & Hgp0 & _ & Hgp1 & _ & _ & _ & _ & _ & _ & _ & ->).
    rewrite Hal', Hl in Hgp0. injection Hgp0 as <-.
    rewrite Hal', lookup_insert_eq in Hgp1. injection Hgp1 as <-.
    set (fitted := fit_hyper (gp_params gp) (gp_train_x gp) (gp_train_y gp)).
    exists (fits ++ [(gp_params gp, fitted)]). simpl.
    rewrite length_app. simpl. split_and!.
    + by rewrite Htr, <- app_assoc.
    + lia.
    + rewrite Hp. by apply warm_started_snoc.
    + done.
    + eexists. split.
      * rewrite lookup_alter_eq, lookup_insert_eq. reflexivity.
      * simpl. unfold next_start. by rewrite last_snoc.
Qed.

End TrialFacts.

(** C5.  A trial that completes appends one trace per policy to the
    results; both have [N_ITERS + 1] entries, and their entry at
    iteration 0 is the same value, the greatest label of the train set
    the trial started from. *)
Theorem trial_traces_shape {row hyper} `{L : Libs row hyper}
    (N_ITERS trial : nat) (s s' : notebook row hyper) :
  trial_body N_ITERS trial s = Ok s' →
  ∃ s0 trace_ei trace_rnd b,
    trial_init trial s = Ok s0
    ∧ best_observed_all_ei s' = best_observed_all_ei s ++ [trace_ei]
    ∧ best_random_all s' = best_random_all s ++ [trace_rnd]
    ∧ length trace_ei = N_ITERS + 1 ∧ length trace_rnd = N_ITERS + 1
    ∧ trace_ei !! 0 = Some b ∧ trace_rnd !! 0 = Some b
    ∧ is_max_of b (train_y_ei s0).
Proof.
  intros H.
  apply trial_body_inv in H as (s0 & s1 & Hinit & Hloop & Hae & Har).
  destruct (trial_init_traces _ _ _ Hinit) as (b & Hg & Hr & Hb).
  destruct (bo_loop_trace_shape _ _ _ _ Hg Hr Hloop) as (Hlg & Hlr & Hhg & Hhr).
  exists s0, (best_observed_ei s1), (best_random s1), b.
  split_and!; try done.
  by apply np_max_spec.
Qed.

Lemma trial_traces_shape_witness :
  ∃ s0 trace_ei trace_rnd b,
    trial_init 1 Demo.nb = Ok s0
    ∧ best_observed_all_ei (Demo.get (trial_body 3 1 Demo.nb))
      = best_observed_all_ei Demo.nb ++ [trace_ei]
    ∧ best_random_all (Demo.get (trial_body 3 1 Demo.nb))
      = best_random_all Demo.nb ++ [trace_rnd]
    ∧ length trace_ei = 3 + 1 ∧ length trace_rnd = 3 + 1
    ∧ trace_ei !! 0 = Some b ∧ trace_rnd !! 0 = Some b
    ∧ is_max_of b (train_y_ei s0).
Proof.
  apply (trial_traces_shape 3 1 Demo.nb (Demo.get (trial_body 3 1 Demo.nb))).
  vm_compute. reflexivity.
Defined.

(** C6.  Within a trial, the first call of the optimiser starts from the
    default hyperparameters, and every later call starts from the
    hyperparameters the call of the iteration before returned. *)
Theorem fit_warm_start {row hyper} `{L : Libs row hyper}
    (trial k : nat) (s s0 sk : notebook row hyper) :
  trial_init trial s = Ok s0 →
  bo_loop k s0 = Ok sk →
  ∃ fits,
    fit_trace sk = fit_trace s ++ fits ∧ length fits = k
    ∧ warm_started default_hyper fits.
Proof.
  intros Hinit Hloop.
  apply trial_init_inv in Hinit
    as (train & test & tx & hx & ty & hy & b & _ & _ & _ & _ & _ & _ & _ & ->).
  eapply bo_loop_fits in Hloop as (fits & Htr & Hlen & Hw & _).
  - exists fits. done.
  - done.
  - simpl. eexists. split; [apply lookup_insert_eq | done].
Qed.

Lemma fit_warm_start_witness :
  ∃ fits,
    fit_trace Demo.s3 = fit_trace Demo.nb ++ fits ∧ length fits = 3
    ∧ warm_started (default_hyper (hyper := nat)) fits.
Proof.
  apply (fit_warm_start 1 3 Demo.nb Demo.s0 Demo.s3).
  - vm_compute. reflexivity.
  - vm_compute. reflexivity.
Defined.

(** The fits of the first three iterations of the small instance. *)
Example demo_fit_trace : fit_trace Demo.s3 = [(0, 3); (3, 7); (7, 12)].
Proof. vm_compute. reflexivity. Qed.



(** ** The dataset is not written *)

Section FrameFacts.
Context {row hyper : Type} `{L : Libs row hyper}.

Implicit Types s : notebook row hyper.

Lemma trial_init_frame trial s s' :
  trial_init trial s = Ok s' → same_dataset s s'.
Proof.
  intros H. apply trial_init_inv in H
    as (train & test & tx & hx & ty & hy & b & _ & _ & _ & _ & _ & _ & _ & ->).
  done.
Qed.

Lemma bo_iteration_frame s s' :
  bo_iteration s = Ok s' → same_dataset s s'.
Proof.
  intros H. apply bo_iteration_inv in H
    as (gp0 & gp & best_f & i & x & lbl & j & rl & pr & p
        & _ & _ & _ & _ & _ & _ & _ & _ & _ & _ & ->).
  done.
Qed.

Lemma bo_loop_frame k s s' :
  bo_loop k s = Ok s' → same_dataset s s'.
Proof.
  apply (for_range_inv (same_dataset s)); [|done].
  intros _ t t' [HX Hy] Hstep.
  destruct (bo_iteration_frame _ _ Hstep) as [HX' Hy'].
  split; congruence.
Qed.

Lemma trial_body_frame N_ITERS trial s s' :
  trial_body N_ITERS trial s = Ok s' → same_dataset s s'.
Proof.
  unfold trial_body. intros H.
  apply bind_Ok in H as (s0 & Hinit & H).
  apply bind_Ok in H as (s1 & Hloop & H). injection H as <-.
  destruct (trial_init_frame _ _ _ Hinit) as [HX0 Hy0].
  destruct (bo_loop_frame _ _ _ Hloop) as [HX1 Hy1].
  split; simpl; congruence.
Qed.

End FrameFacts.

(** C8.  The feature matrix and the label vector of the notebook are the
    same after the experiment as before it; and no step on the way writes
    them: not the start of a trial, not an iteration, not a whole
    trial. *)
Theorem dataset_read_only {row hyper} `{L : Libs row hyper}
    (N_TRIALS N_ITERS : nat) (s s' : notebook row hyper) :
  experiment N_TRIALS N_ITERS s = Ok s' →
  (X s' = X s ∧ y s' = y s)
  ∧ (∀ trial u t, trial_init trial u = Ok t → X t = X u ∧ y t = y u)
  ∧ (∀ u t, bo_iteration u = Ok t → X t = X u ∧ y t = y u)
  ∧ (∀ trial u t, trial_body N_ITERS trial u = Ok t → X t = X u ∧ y t = y u).
Proof.
  intros H. split; [|split; [|split]].
  - revert H. apply (for_range_inv (same_dataset s)); [|done].
    intros trial t t' [HX Hy] Hstep.
    destruct (trial_body_frame _ _ _ _ Hstep) as [HX' Hy'].
    split; congruence.
  - intros trial u t. apply trial_init_frame.
  - intros u t. apply bo_iteration_frame.
  - intros trial u t. apply trial_body_frame.
Qed.

Lemma dataset_read_only_witness :
  (X (Demo.get (experiment 2 3 Demo.nb)) = X Demo.nb
   ∧ y (Demo.get (experiment 2 3 Demo.nb)) = y Demo.nb)
  ∧ (∀ trial u t, trial_init trial u = Ok t → X t = X u ∧ y t = y u)
  ∧ (∀ u t, bo_iteration u = Ok t → X t = X u ∧ y t = y u)
  ∧ (∀ trial u t, trial_body 3 trial u = Ok t → X t = X u ∧ y t = y u).
Proof.
  apply (dataset_read_only 2 3 Demo.nb (Demo.get (experiment 2 3 Demo.nb))).
  vm_compute. reflexivity.
Defined.

(** ** Aggregation *)

Section ResultFacts.
Context {row hyper : Type} `{L : Libs row hyper}.

Implicit Types s : notebook row hyper.

Lemma trial_body_results N_ITERS trial n s s' :
  results_shape N_ITERS n s →
  trial_body N_ITERS trial s = Ok s' →
  results_shape N_ITERS (S n) s'.
Proof.
  intros (Hle & Hlr & Hfe & Hfr) H. unfold results_shape.
  apply trial_body_inv in H as (s0 & s1 & Hinit & Hloop & -> & ->).
  destruct (trial_init_traces _ _ _ Hinit) as (b & Hg & Hr & _).
  destruct (bo_loop_trace_shape _ _ _ _ Hg Hr Hloop) as (Hte & Htr & _).
  rewrite !length_app, !Forall_app, !Forall_singleton.
  simpl. split_and!; try done; lia.
Qed.

Lemma trials_results N_ITERS trials : ∀ n s s',
  results_shape N_ITERS n s →
  for_range (trial_body N_ITERS) trials s = Ok s' →
  results_shape N_ITERS (n + length trials) s'.
Proof.
  induction trials as [|trial trials IH]; intros n s s' Hs H; simpl in H.
  - injection H as <-. simpl. by rewrite Nat.add_0_r.
  - apply bind_Ok in H as (s1 & H1 & H). simpl.
    rewrite Nat.add_succ_r, <- Nat.add_succ_l.
    eapply IH; [|done]. by eapply trial_body_results.
Qed.

Lemma experiment_results N_TRIALS N_ITERS features labels g s' :
  experiment N_TRIALS N_ITERS (load features labels g) = Ok s' →
  results_shape N_ITERS N_TRIALS s'.
Proof.
  intros H. apply (trials_results _ _ 0) in H.
  - by rewrite length_seq in H.
  - unfold results_shape. simpl. by split_and!.
Qed.

End ResultFacts.

(** *** The array of the collected traces *)





(** Without iterations every trace is its first entry alone, and the
    array is built: one row per trial, one column. *)
Lemma initial_traces_form_an_array {row hyper} `{L : Libs row hyper}
    (N_TRIALS label_ndim : nat) (features : list row)
    (labels : list Z) (g : nat) (s' : notebook row hyper) :
  experiment N_TRIALS 0 (load features labels g) = Ok s' →
  np_asarray (best_observed_tensors label_ndim <$> best_observed_all_ei s')
  = Ok (map (map IZR) (best_observed_all_ei s')).
Proof.
  intros H. apply experiment_results in H as (_ & _ & Hrows & _).
  assert (Hone : Forall (λ trace, ∃ t, trace = [t]) (best_observed_all_ei s')).
  { eapply Forall_impl; [exact Hrows|]. intros [|t [|? ?]] Hl; simpl in Hl;
      try lia. by exists t. }
  clear Hrows.
  assert (Hmap :
    map (map (λ e : nat * Z, IZR e.2))
        (best_observed_tensors label_ndim <$> best_observed_all_ei s')
    = map (map IZR) (best_observed_all_ei s')).
  { induction Hone as [|trace traces [t ->] _ IH]; [done|].
    rewrite fmap_cons. cbn [map]. by rewrite IH. }
  assert (Hfirst :
    default [] (head (best_observed_tensors label_ndim
                        <$> best_observed_all_ei s')) = []
    ∨ ∃ t, default [] (head (best_observed_tensors label_ndim
                               <$> best_observed_all_ei s')) = [(0, t)]).
  { destruct Hone as [|trace traces [t ->] _]; [by left|]. right. by exists t. }
  unfold np_asarray.
  simpl. rewrite Hmap.
  destruct (decide _) as [|Hno]; [done|]. exfalso. apply Hno.
  destruct (best_observed_all_ei s') as [|trace traces]; [constructor|].
  destruct Hfirst as [Hf|[t0 Hf]]; rewrite Hf.
  { apply Forall_cons_1 in Hone as [[t ->] _]. discriminate Hf. }
  apply Forall_fmap. eapply Forall_impl; [exact Hone|].
  intros ? [t ->]. simpl. split; [done|]. by repeat constructor.
Qed.

(** With the constants of the notebook, twenty trials of twenty
    iterations, the experiment on the small instance completes and
    collects twenty traces of twenty-one entries per policy. *)
Example demo_default_experiment :
  ∃ s', experiment N_TRIALS_default N_ITERS_default Demo.nb = Ok s'
        ∧ results_shape N_ITERS_default N_TRIALS_default s'.
Proof.
  exists (Demo.get (experiment N_TRIALS_default N_ITERS_default Demo.nb)).
  assert (H : experiment N_TRIALS_default N_ITERS_default Demo.nb
              = Ok (Demo.get (experiment N_TRIALS_default N_ITERS_default Demo.nb)))
    by (vm_compute; reflexivity).
  split; [done|]. by apply experiment_results in H.
Qed.

(** ** Completion *)

Section Progress.
Context {row hyper : Type} `{L : Libs row hyper}.

Implicit Types s : notebook row hyper.

Lemma optimize_acqf_total (acq_func : row → Z) heldout_inputs heldout_outputs :
  length heldout_inputs = length heldout_outputs →
  0 < length heldout_inputs →
  ∃ r, optimize_acqf_and_get_observation acq_func heldout_inputs heldout_outputs
       = Ok r.
Proof.
  intros Hlen Hpos. unfold optimize_acqf_and_get_observation.
  rewrite acq_evaluations_pool by done. simpl.
  destruct (argmax _) as [e|i] eqn:Hi.
  { destruct heldout_inputs; [simpl in Hpos; lia | discriminate]. }
  simpl.
  apply argmax_spec in Hi as (m & Hm & _).
  apply lookup_lt_Some in Hm. rewrite !length_map in Hm.
  destruct (tensor_index_lt heldout_inputs i Hm) as [x ->].
  destruct (tensor_index_lt heldout_outputs i) as [lbl ->]; [lia|].
  simpl. eauto.
Qed.

Lemma update_random_total g best_random heldout_inputs heldout_outputs prev :
  randperm_in_range →
  0 < length heldout_outputs →
  last best_random = Some prev →
  ∃ r, update_random_observations g best_random heldout_inputs heldout_outputs
       = Ok r.
Proof.
  intros Hrng Hpos Hlast. unfold update_random_observations.
  destruct (Hrng g _ Hpos) as (i & Hi & Hlt).
  apply tensor_index_Ok in Hi. rewrite Hi. simpl.
  destruct (tensor_index_lt heldout_outputs i Hlt) as [lbl ->]. simpl.
  apply py_last_Ok in Hlast. rewrite Hlast. simpl. eauto.
Qed.

Lemma bo_iteration_total s gp v prev prev_rnd :
  randperm_in_range →
  mll_model (mll_ei s) = model_ei s →
  heap s !! model_ei s = Some gp →
  tensor_max (train_y_ei s) = Ok v →
  last (best_observed_ei s) = Some prev →
  last (best_random s) = Some prev_rnd →
  length (heldout_x_ei s) = length (heldout_y_ei s) →
  0 < length (heldout_x_ei s) →
  0 < length (heldout_y_random s) →
  ∃ s', bo_iteration s = Ok s'.
Proof.
  intros Hrng Hal Hgp Hv Hlg Hlr Hlen Hpos Hposr.
  unfold bo_iteration, fit_gpytorch_model, state_dict, deref.
  rewrite Hal, Hgp. simpl. rewrite Hv. simpl.
  rewrite lookup_insert_eq. simpl.
  destruct (optimize_acqf_total
              (ExpectedImprovement
                 (load_state_dict
                    (fit_hyper (gp_params gp) (gp_train_x gp) (gp_train_y gp)) gp) v)
              _ _ Hlen Hpos) as ([[[x lbl] hx] hy] & ->).
  simpl.
  destruct (update_random_total (rng s) (best_random s) (heldout_x_random s)
              (heldout_y_random s) prev_rnd Hrng Hposr Hlr)
    as ([[br hxr] hyr] & ->).
  simpl. apply py_last_Ok in Hlg. rewrite Hlg. simpl. eauto.
Qed.

(** A trial that has started completes any number of iterations up to
    the size of its pool. *)
Lemma bo_loop_total trial s s0 k :
  randperm_in_range →
  trial_init trial s = Ok s0 →
  k ≤ length (heldout_y_ei s0) →
  ∃ sk, bo_loop k s0 = Ok sk.
Proof.
  intros Hrng Hinit. induction k as [|k IH]; intros Hk.
  - by exists s0.
  - destruct IH as [sk Hloop]; [lia|].
    rewrite bo_loop_S_r, Hloop. simpl.
    pose proof (trial_init_pools _ _ _ Hinit) as H0.
    pose proof (bo_loop_pools _ _ _ H0 Hloop)
      as [_ _ _ Hlg Hlr _ _ Hzg Hzr].
    destruct (trial_init_traces _ _ _ Hinit) as (b & Hg & Hr & Hb).
    destruct (bo_loop_trace_shape _ _ _ _ Hg Hr Hloop) as (_ & Hlenr & _).
    destruct (bo_loop_best_f _ _ _ _ Hg (np_max_tensor_max _ _ Hb) Hloop)
      as (_ & _ & v & Hv & Hlast).
    assert (Hheap : mll_model (mll_ei s0) = model_ei s0
                    ∧ ∃ gp, heap s0 !! model_ei s0 = Some gp
                            ∧ gp_params gp = default_hyper).
    { apply trial_init_inv in Hinit
        as (train & test & tx & hx & ty & hy & b' & _ & _ & _ & _ & _ & _ & _ & ->).
      simpl. split; [done|]. eexists. split; [apply lookup_insert_eq | done]. }
    destruct Hheap as [Hal Hgp].
    destruct (bo_loop_fits _ _ _ Hal Hgp Hloop)
      as (fits & _ & _ & _ & Hal' & gp & Hgp' & _).
    destruct (last (best_random sk)) as [prev_rnd|] eqn:Hlastr.
    2: { rewrite last_None in Hlastr. rewrite Hlastr in Hlenr.
         simpl in Hlenr. lia. }
    assert (Hsame : length (heldout_x_ei s0) = length (heldout_y_ei s0)
                    ∧ length (heldout_x_random s0) = length (heldout_y_ei s0)).
    { destruct H0 as [_ _ _ Hl0 _ _ _ _ _].
      apply trial_init_inv in Hinit
        as (train & test & tx & hx & ty & hy & b' & _ & _ & _ & _ & _ & _ & _ & ->).
      simpl in *. done. }
    destruct Hsame as [Hs1 Hs2].
    eapply bo_iteration_total; try done; lia.
Qed.

End Progress.

Lemma demo_randperm_in_range : randperm_in_range (L := Demo.libs).
Proof.
  intros g n Hn. simpl. unfold rotate. rewrite length_seq.
  pose proof (Nat.mod_upper_bound (g + 3) n) as Hm.
  exists ((g + 3) mod n). split; [|lia].
  rewrite lookup_app_l by (rewrite length_drop, length_seq; lia).
  rewrite lookup_drop, Nat.add_0_r. apply lookup_seq. lia.
Qed.

(** ** Relabelling *)

Section Relabel.
Context {A B hyper : Type} (f : A → B) (LB : Libs B hyper).

Local Abbreviation LA := (pullback f LB).

Lemma tensor_index_fmap (t : list A) i :
  tensor_index (f <$> t) i = map_result f (tensor_index t i).
Proof. unfold tensor_index. rewrite list_lookup_fmap. by destruct (t !! i). Qed.

Lemma cat_without_fmap (t : list A) i :
  cat_without (f <$> t) i = f <$> cat_without t i.
Proof. unfold cat_without. by rewrite fmap_app, fmap_take, fmap_drop. Qed.

Lemma take_rows_fmap (a : list A) idx :
  take_rows (f <$> a) idx = map_result (fmap f) (take_rows a idx).
Proof.
  induction idx as [|i idx IH]; simpl; [done|].
  rewrite tensor_index_fmap, IH.
  destruct (tensor_index a i); simpl; [done|].
  by destruct (take_rows a idx).
Qed.

Lemma acq_loop_fmap (acq_func : B → Z) (inputs : list A) idxs : ∀ evals,
  acq_loop acq_func (f <$> inputs) idxs (prod_map f (@Datatypes.id Z) <$> evals)
  = map_result (fmap (prod_map f (@Datatypes.id Z)))
      (acq_loop (acq_func ∘ f) inputs idxs evals).
Proof.
  induction idxs as [|i idxs IH]; intros evals; simpl; [done|].
  rewrite tensor_index_fmap.
  destruct (tensor_index inputs i) as [e|x]; simpl; [done|].
  rewrite <- IH. by rewrite fmap_app.
Qed.

Lemma optimize_acqf_fmap (acq_func : B → Z) (inputs : list A) outputs :
  optimize_acqf_and_get_observation acq_func (f <$> inputs) outputs
  = map_result (λ r, (f r.1.1.1, r.1.1.2, f <$> r.1.2, r.2))
      (optimize_acqf_and_get_observation (acq_func ∘ f) inputs outputs).
Proof.
  unfold optimize_acqf_and_get_observation, acq_evaluations.
  rewrite (acq_loop_fmap acq_func inputs _ []).
  destruct (acq_loop _ inputs _ []) as [e|evals]; simpl; [done|].
  rewrite <- list_fmap_compose.
  change (snd ∘ prod_map f (@Datatypes.id Z)) with (@snd A Z).
  destruct (argmax evals.*2) as [e|i]; simpl; [done|].
  rewrite tensor_index_fmap.
  destruct (tensor_index inputs i) as [e|x]; simpl; [done|].
  destruct (tensor_index outputs i) as [e|lbl]; simpl; [done|].
  by rewrite cat_without_fmap.
Qed.

Lemma update_random_fmap g best_random (inputs : list A) outputs :
  update_random_observations (L := LB) g best_random (f <$> inputs) outputs
  = map_result (λ r, (r.1.1, f <$> r.1.2, r.2))
      (update_random_observations (L := LA) g best_random inputs outputs).
Proof.
  unfold update_random_observations. simpl.
  destruct (tensor_index _ 0) as [e|i]; simpl; [done|].
  destruct (tensor_index outputs i) as [e|lbl]; simpl; [done|].
  destruct (py_last best_random) as [e|prev]; simpl; [done|].
  by rewrite cat_without_fmap.
Qed.

Lemma initialize_model_fmap (train_x : list A) train_obj sd
    (σ : gmap nat (TanimotoGP A hyper)) :
  initialize_model (L := LB) (f <$> train_x) train_obj sd (map_gp f <$> σ)
  = ((initialize_model (L := LA) train_x train_obj sd σ).1,
     map_gp f <$> (initialize_model (L := LA) train_x train_obj sd σ).2).
Proof.
  unfold initialize_model. simpl. rewrite dom_fmap_L.
  destruct sd as [sd|]; simpl.
  - rewrite (fmap_alter (map_gp f) (load_state_dict sd) (load_state_dict sd))
      by done.
    by rewrite fmap_insert.
  - by rewrite fmap_insert.
Qed.

Lemma deref_fmap (σ : gmap nat (TanimotoGP A hyper)) l :
  deref (map_gp f <$> σ) l = map_result (map_gp f) (deref σ l).
Proof. unfold deref. rewrite lookup_fmap. by destruct (σ !! l). Qed.

Lemma load_state_dict_fmap sd (gp : TanimotoGP A hyper) :
  load_state_dict sd (map_gp f gp) = map_gp f (load_state_dict sd gp).
Proof. reflexivity. Qed.

Lemma bo_iteration_relabel (s : notebook A hyper) :
  bo_iteration (L := LB) (map_notebook f s)
  = map_result (map_notebook f) (bo_iteration (L := LA) s).
Proof.
  unfold bo_iteration, fit_gpytorch_model, state_dict.
  cbn [map_notebook heap mll_ei model_ei train_y_ei train_x_ei heldout_x_ei
       heldout_y_ei heldout_x_random heldout_y_random rng best_random
       best_observed_ei].
  rewrite deref_fmap.
  destruct (deref (heap s) _) as [e|gp0]; [done|].
  cbn [map_result mbind result_bind].
  destruct (tensor_max (train_y_ei s)) as [e|best_f]; [done|].
  cbn [mbind result_bind].
  rewrite load_state_dict_fmap, <- fmap_insert, deref_fmap.
  cbn [map_gp gp_params gp_train_x gp_train_y pullback fit_hyper].
  destruct (deref _ (model_ei s)) as [e|gp]; [done|].
  cbn [map_result mbind result_bind].
  rewrite (optimize_acqf_fmap (ExpectedImprovement (L := LB) (map_gp f gp) best_f)).
  change (ExpectedImprovement (L := LB) (map_gp f gp) best_f ∘ f)
    with (ExpectedImprovement (L := LA) gp best_f).
  destruct (optimize_acqf_and_get_observation _ _ _)
    as [e|[[[new_x new_obj] hx] hy]]; [done|].
  cbn [map_result mbind result_bind fst snd].
  rewrite update_random_fmap.
  destruct (update_random_observations _ _ _ _)
    as [e|[[br hxr] hyr]]; [done|].
  cbn [map_result mbind result_bind fst snd].
  destruct (py_last (best_observed_ei s)) as [e|prev]; [done|].
  cbn [map_result mbind result_bind gp_params map_gp].
  change [f new_x] with (f <$> [new_x]). rewrite <- fmap_app.
  rewrite initialize_model_fmap.
  destruct (initialize_model _ _ _ _) as [[mll model] σ2]. done.
Qed.

Lemma bo_loop_relabel k (s : notebook A hyper) :
  bo_loop (L := LB) k (map_notebook f s)
  = map_result (map_notebook f) (bo_loop (L := LA) k s).
Proof.
  revert s. induction k as [|k IH]; intros s; [done|].
  rewrite !bo_loop_S_l, bo_iteration_relabel.
  destruct (bo_iteration s) as [e|s1]; simpl; [done | apply IH].
Qed.

Lemma trial_init_relabel trial (s : notebook A hyper) :
  trial_init (L := LB) trial (map_notebook f s)
  = map_result (map_notebook f) (trial_init (L := LA) trial s).
Proof.
  unfold trial_init, train_test_split.
  cbn [map_notebook X y heap pullback split_indices].
  rewrite length_fmap.
  destruct (decide _) as [Hlen|]; [|done].
  destruct (split_indices _ _ _) as [e|[train test]]; [done|].
  cbn [mbind result_bind]. rewrite !take_rows_fmap.
  destruct (take_rows (X s) train) as [e|tx]; [done|].
  destruct (take_rows (X s) test) as [e|hx]; [done|].
  destruct (take_rows (y s) train) as [e|ty]; [done|].
  destruct (take_rows (y s) test) as [e|hy]; [done|].
  cbn [map_result mbind result_bind].
  destruct (np_max ty) as [e|b]; [done|].
  cbn [mbind result_bind].
  rewrite initialize_model_fmap.
  destruct (initialize_model _ _ _ _) as [[mll model] σ2]. done.
Qed.

End Relabel.

(** A dataset is the image of its indices: the notebook loaded with the
    rows [features] is the notebook loaded with the indices, relabelled
    by the row of each index. *)
Lemma load_relabel {B hyper} (d : B) (features : list B) (labels : list Z) g :
  load (hyper := hyper) features labels g
  = map_notebook (λ i, default d (features !! i))
      (load (seq 0 (length features)) labels g).
Proof.
  unfold load, map_notebook. simpl. rewrite fmap_empty. f_equal.
  apply list_eq. intros i. rewrite list_lookup_fmap.
  destruct (features !! i) as [x|] eqn:Hx.
  - apply lookup_lt_Some in Hx as Hi.
    rewrite lookup_seq_lt by done. simpl. by rewrite Hx.
  - apply lookup_ge_None in Hx as Hi.
    rewrite lookup_seq_ge by done. done.
Qed.

(** Whatever the rows of the dataset are, the states of a trial are the
    images, under the row of each index, of states over the indices in
    which the train set and the pool of each policy partition the index
    set. *)
Lemma partition_any_dataset {B hyper} `{LB : Libs B hyper} (d : B)
    (features : list B) (trial k : nat)
    (si : notebook nat hyper) (s0 sk : notebook B hyper) :
  let f := λ i, default d (features !! i) in
  let N := length features in
  X si = seq 0 N →
  (∀ train test, split_indices holdout_set_size trial N = Ok (train, test) →
                 train ++ test ≡ₚ seq 0 N) →
  trial_init trial (map_notebook f si) = Ok s0 →
  bo_loop k s0 = Ok sk →
  ∃ s0i ski : notebook nat hyper,
    s0 = map_notebook f s0i ∧ sk = map_notebook f ski
    ∧ partition_of N (train_x_ei ski) (heldout_x_ei ski)
    ∧ partition_of N (observed_random s0i ski) (heldout_x_random ski).
Proof.
  intros f N HX Hsplit Hinit Hloop.
  rewrite trial_init_relabel in Hinit.
  destruct (trial_init trial si) as [e|s0i] eqn:Hinit'; [discriminate|].
  injection Hinit as <-.
  rewrite bo_loop_relabel in Hloop.
  destruct (bo_loop k s0i) as [e|ski] eqn:Hloop'; [discriminate|].
  injection Hloop as <-.
  exists s0i, ski. split; [done|]. split; [done|].
  destruct (trial_init_index_split (L := pullback f LB) _ _ _ _ HX Hsplit Hinit')
    as [Hpart0 Heq].
  pose proof (trial_init_pools _ _ _ Hinit') as H0.
  pose proof (bo_loop_pools _ _ _ H0 Hloop') as [Hx _ _ _ _ _ Hsr _ _].
  assert (Hnd : NoDup (heldout_x_random s0i)).
  { assert (Hnd : NoDup (train_x_ei s0i ++ heldout_x_random s0i))
      by (rewrite Hpart0; apply NoDup_seq).
    by apply NoDup_app in Hnd as (_ & _ & Hnd). }
  split; apply perm_partition.
  - by rewrite Hx, Heq.
  - unfold observed_random.
    by rewrite <- app_assoc, (list_difference_sublist_perm _ _ Hnd Hsr).
Qed.

(** * Further properties of the notebook *)

(** ** The helper functions on unusual pools *)

Lemma acq_loop_raise {row} (acq_func : row → Z) heldout_inputs idxs : ∀ evals e,
  acq_loop acq_func heldout_inputs idxs evals = Raise e → e = IndexError.
Proof.
  induction idxs as [|i idxs IH]; intros evals e H; simpl in H; [discriminate|].
  unfold tensor_index in H.
  destruct (heldout_inputs !! i) as [x|]; simpl in H; [by eapply IH|].
  by injection H as <-.
Qed.

Lemma argmax_raise v e : argmax v = Raise e → e = IndexError.
Proof. destruct v; simpl; congruence. Qed.

Lemma drop_delete_below {A} (l : list A) idx n :
  idx < n → n ≤ length l → drop (n - 1) (delete idx l) = drop n l.
Proof.
  intros Hidx Hn. rewrite delete_take_drop.
  rewrite drop_app_ge by (rewrite length_take; lia).
  rewrite length_take, drop_drop. f_equal. lia.
Qed.

(** X1.  The evaluation loop of the optimiser runs over the number of
    labels.  With fewer inputs than labels the call raises [IndexError];
    with more inputs than labels only the inputs at positions below the
    number of labels are evaluated and can be selected, and the inputs
    beyond stay in the pool. *)
Theorem optimizer_loop_bound {row} (acq_func : row → Z)
    (heldout_inputs : list row) (heldout_outputs : list Z) :
  (length heldout_inputs < length heldout_outputs →
   optimize_acqf_and_get_observation acq_func heldout_inputs heldout_outputs
   = Raise IndexError)
  ∧ (length heldout_outputs ≤ length heldout_inputs →
     acq_evaluations acq_func heldout_inputs heldout_outputs
     = Ok (map (λ x, (x, acq_func x))
             (take (length heldout_outputs) heldout_inputs))
     ∧ ∀ new_x new_obj inputs' outputs',
         optimize_acqf_and_get_observation acq_func heldout_inputs
           heldout_outputs = Ok (new_x, new_obj, inputs', outputs') →
         ∃ best_idx,
           best_idx < length heldout_outputs
           ∧ inputs' = delete best_idx heldout_inputs
           ∧ drop (length heldout_outputs - 1) inputs'
             = drop (length heldout_outputs) heldout_inputs).
Proof.
  split.
  - intros Hlt. unfold optimize_acqf_and_get_observation, acq_evaluations.
    rewrite acq_loop_short by (simpl; lia). done.
  - intros Hle. split.
    + unfold acq_evaluations. rewrite acq_loop_seq by (simpl; lia).
      by rewrite drop_0.
    + intros new_x new_obj inputs' outputs' H.
      apply optimize_acqf_inv in H as (idx & _ & _ & Hl & -> & _).
      apply lookup_lt_Some in Hl. exists idx.
      split; [done|]. split; [done|]. by apply drop_delete_below.
Qed.

Lemma optimizer_loop_bound_witness :
  optimize_acqf_and_get_observation (λ x : nat, Z.of_nat x) [7; 9] [1; 2; 3]%Z
  = Raise IndexError
  ∧ ∃ best_idx,
      best_idx < length [1; 2]%Z
      ∧ [7; 3; 8] = delete best_idx [7; 9; 3; 8]
      ∧ drop (length [1; 2]%Z - 1) [7; 3; 8]
        = drop (length [1; 2]%Z) [7; 9; 3; 8].
Proof.
  destruct (optimizer_loop_bound (λ x : nat, Z.of_nat x) [7; 9] [1; 2; 3]%Z)
    as [Hshort _].
  destruct (optimizer_loop_bound (λ x : nat, Z.of_nat x) [7; 9; 3; 8] [1; 2]%Z)
    as [_ Hlong].
  split.
  - apply Hshort. simpl. lia.
  - destruct Hlong as [_ Hsel]; [simpl; lia|].
    apply (Hsel 9 2%Z [7; 3; 8] [1%Z]). reflexivity.
Defined.

(** X2.  The two selection operations fail in one way only: each call
    either returns or raises [IndexError].  And the random policy cannot
    start from an empty list of best values: whatever the pool and the
    generator, the call raises. *)
Theorem selection_failure_class {row hyper} `{L : Libs row hyper}
    (acq_func : row → Z) (g : nat) (best_random : list Z)
    (heldout_inputs : list row) (heldout_outputs : list Z) :
  ((∃ r, optimize_acqf_and_get_observation acq_func heldout_inputs
           heldout_outputs = Ok r)
   ∨ optimize_acqf_and_get_observation acq_func heldout_inputs heldout_outputs
     = Raise IndexError)
  ∧ ((∃ r, update_random_observations g best_random heldout_inputs
             heldout_outputs = Ok r)
     ∨ update_random_observations g best_random heldout_inputs heldout_outputs
       = Raise IndexError)
  ∧ update_random_observations g [] heldout_inputs heldout_outputs
    = Raise IndexError.
Proof.
  split; [|split].
  - destruct (optimize_acqf_and_get_observation _ _ _) as [e|r] eqn:H;
      [right | by eauto].
    f_equal. revert H.
    unfold optimize_acqf_and_get_observation, acq_evaluations. intros H.
    destruct (acq_loop _ _ _ _) as [e'|evals] eqn:Hev; simpl in H.
    { injection H as <-. by eapply acq_loop_raise. }
    destruct (argmax evals.*2) as [e'|i] eqn:Hi; simpl in H.
    { injection H as <-. by eapply argmax_raise. }
    unfold tensor_index in H.
    destruct (heldout_inputs !! i); simpl in H; [|congruence].
    destruct (heldout_outputs !! i); simpl in H; congruence.
  - unfold update_random_observations, tensor_index, py_last.
    destruct (randperm g _ !! 0) as [i|]; simpl; [|by right].
    destruct (heldout_outputs !! i); simpl; [|by right].
    destruct (last best_random); simpl; [left; eauto | by right].
  - unfold update_random_observations, tensor_index, py_last.
    destruct (randperm g _ !! 0) as [i|]; simpl; [|done].
    by destruct (heldout_outputs !! i).
Qed.

(** ** Model objects *)

(** X3.  [initialize_model] allocates: the model it returns was not in
    the heap, every model that was is unchanged, the likelihood refers to
    the new model, the new model holds the training data passed, and its
    state dict is the one passed, or the defaults when none is. *)
Theorem initialize_model_allocates {row hyper} `{L : Libs row hyper}
    (train_x : list row) (train_obj : list Z) (sd : option hyper)
    (σ : gmap nat (TanimotoGP row hyper)) :
  let im := initialize_model train_x train_obj sd σ in
  σ !! im.1.2 = None
  ∧ (∀ l gp, σ !! l = Some gp → im.2 !! l = Some gp)
  ∧ mll_model im.1.1 = im.1.2
  ∧ state_dict im.2 im.1.2 = Ok (default default_hyper sd)
  ∧ (∃ gp, im.2 !! im.1.2 = Some gp
           ∧ gp_train_x gp = train_x ∧ gp_train_y gp = train_obj).
Proof.
  intros im.
  pose proof (initialize_model_fresh train_x train_obj sd σ) as Hfresh.
  pose proof (initialize_model_lookup train_x train_obj sd σ) as Hlk.
  fold im in Hfresh, Hlk. split_and!; try done.
  - intros l gp Hl.
    assert (Hne : im.1.2 ≠ l).
    { intros Heq. rewrite Heq in Hfresh. unfold loc in *. congruence. }
    unfold im, initialize_model in *. simpl in *.
    destruct sd as [sd|].
    + by rewrite lookup_alter_ne, lookup_insert_ne.
    + by rewrite lookup_insert_ne.
  - unfold state_dict, deref. by rewrite Hlk.
  - eexists. split; [exact Hlk | done].
Qed.

(** X4.  A fit made through the likelihood is seen through the model it
    refers to, and only there; re-initialising with the state dict of
    the fitted model gives a new model object with the fitted
    hyperparameters, next to the old one, which keeps them. *)
Theorem refit_round_trip {row hyper} `{L : Libs row hyper}
    (mll : ExactMarginalLogLikelihood) (model : loc)
    (σ σ1 : gmap nat (TanimotoGP row hyper)) (start fitted : hyper)
    (train_x : list row) (train_obj : list Z) :
  mll_model mll = model →
  fit_gpytorch_model mll σ = Ok (start, fitted, σ1) →
  let im := initialize_model train_x train_obj (Some fitted) σ1 in
  state_dict σ model = Ok start
  ∧ state_dict σ1 model = Ok fitted
  ∧ (∀ l, l ≠ model → σ1 !! l = σ !! l)
  ∧ im.1.2 ≠ model
  ∧ state_dict im.2 im.1.2 = Ok fitted
  ∧ state_dict im.2 model = Ok fitted.
Proof.
  intros <- Hfit im. subst im. unfold fit_gpytorch_model in Hfit.
  apply bind_Ok in Hfit as (gp & Hgp & Hfit). injection Hfit as <- <- <-.
  set (model := mll_model mll) in *.
  set (fitted := fit_hyper (gp_params gp) (gp_train_x gp) (gp_train_y gp)) in *.
  set (σ1 := <[model := load_state_dict fitted gp]> σ) in *.
  set (im := initialize_model train_x train_obj (Some fitted) σ1).
  assert (H1 : σ1 !! model = Some (load_state_dict fitted gp))
    by apply lookup_insert_eq.
  pose proof (initialize_model_fresh train_x train_obj (Some fitted) σ1) as Hfresh.
  pose proof (initialize_model_lookup train_x train_obj (Some fitted) σ1) as Hlk.
  fold im in Hfresh, Hlk.
  assert (Hne : im.1.2 ≠ model).
  { intros Heq. rewrite Heq in Hfresh. unfold loc in *. congruence. }
  split_and!.
  - unfold state_dict. by rewrite Hgp.
  - unfold state_dict, deref. by rewrite H1.
  - intros l Hl. unfold σ1. by rewrite lookup_insert_ne.
  - exact Hne.
  - unfold state_dict, deref. by rewrite Hlk.
  - unfold state_dict, deref, im, initialize_model. simpl.
    rewrite lookup_alter_ne, lookup_insert_ne by done. by rewrite H1.
Qed.

Lemma refit_round_trip_witness :
  let σ : gmap nat (TanimotoGP nat nat) :=
    {[ 0 := {| gp_params := 0; gp_train_x := [1; 2];
               gp_train_y := [3; 4]%Z |} ]} in
  let σ1 : gmap nat (TanimotoGP nat nat) :=
    {[ 0 := {| gp_params := 3; gp_train_x := [1; 2];
               gp_train_y := [3; 4]%Z |} ]} in
  let im := initialize_model (L := Demo.libs) [1; 2; 5] [3; 4; 6]%Z (Some 3) σ1 in
  state_dict σ 0 = Ok 0
  ∧ state_dict σ1 0 = Ok 3
  ∧ (∀ l, l ≠ 0 → σ1 !! l = σ !! l)
  ∧ im.1.2 ≠ 0
  ∧ state_dict im.2 im.1.2 = Ok 3
  ∧ state_dict im.2 0 = Ok 3.
Proof.
  intros σ σ1.
  apply (refit_round_trip (L := Demo.libs) {| mll_model := 0 |} 0 σ σ1 0 3
           [1; 2; 5] [3; 4; 6]%Z).
  - reflexivity.
  - vm_compute. reflexivity.
Defined.

(** ** The state of a trial *)

Section TrialState.
Context {row hyper : Type} `{L : Libs row hyper}.

Implicit Types s : notebook row hyper.

Lemma trial_init_model trial s s0 :
  trial_init trial s = Ok s0 →
  mll_model (mll_ei s0) = model_ei s0
  ∧ ∃ gp, heap s0 !! model_ei s0 = Some gp
          ∧ gp_params gp = default_hyper
          ∧ gp_train_x gp = train_x_ei s0 ∧ gp_train_y gp = train_y_ei s0.
Proof.
  intros H. apply trial_init_inv in H
    as (train & test & tx & hx & ty & hy & b & _ & _ & _ & _ & _ & _ & _ & ->).
  simpl. split; [done|]. eexists. split; [apply lookup_insert_eq | done].
Qed.

Lemma bo_loop_rng k : ∀ s sk, bo_loop k s = Ok sk → rng sk = rng s + k.
Proof.
  induction k as [|k IH]; intros s sk H.
  - injection H as <-. lia.
  - rewrite bo_loop_S_r in H. apply bind_Ok in H as (s1 & Hk & H).
    apply IH in Hk.
    apply bo_iteration_inv in H
      as (gp0 & gp & best_f & i & x & lbl & j & rl & pr & p
          & _ & _ & _ & _ & _ & _ & _ & _ & _ & _ & ->).
    simpl. lia.
Qed.

End TrialState.

(** X5.  At every iteration of a trial the likelihood refers to the
    model the notebook holds, and that model holds exactly the current
    train set of the GP policy: the fit of the next iteration is a fit
    on the current train set. *)
Theorem model_holds_train_set {row hyper} `{L : Libs row hyper}
    (trial k : nat) (s s0 sk : notebook row hyper) :
  trial_init trial s = Ok s0 →
  bo_loop k s0 = Ok sk →
  mll_model (mll_ei sk) = model_ei sk
  ∧ ∃ gp, heap sk !! model_ei sk = Some gp
          ∧ gp_train_x gp = train_x_ei sk ∧ gp_train_y gp = train_y_ei sk.
Proof.
  intros Hinit Hloop. destruct k as [|k].
  - injection Hloop as <-.
    destruct (trial_init_model _ _ _ Hinit) as (Hal & gp & Hgp & _ & Hx & Hy).
    eauto.
  - rewrite bo_loop_S_r in Hloop. apply bind_Ok in Hloop as (s1 & _ & H).
    apply bo_iteration_inv in H
      as (gp0 & gp & best_f & i & x & lbl & j & rl & pr & p
          & _ & _ & _ & _ & _ & _ & _ & _ & _ & _ & ->).
    cbn [mll_ei model_ei heap train_x_ei train_y_ei].
    split; [apply initialize_model_mll|].
    eexists. split; [apply initialize_model_lookup | done].
Qed.

Lemma model_holds_train_set_witness :
  mll_model (mll_ei Demo.s3) = model_ei Demo.s3
  ∧ ∃ gp, heap Demo.s3 !! model_ei Demo.s3 = Some gp
          ∧ gp_train_x gp = train_x_ei Demo.s3
          ∧ gp_train_y gp = train_y_ei Demo.s3.
Proof.
  apply (model_holds_train_set 1 3 Demo.nb Demo.s0 Demo.s3).
  - vm_compute. reflexivity.
  - vm_compute. reflexivity.
Defined.

(** X6.  After [k] iterations of a trial the train set of the GP policy
    has grown by [k] points, each of the two pools has shrunk by [k]
    points, so the two pools always have the same size, inputs and labels
    agree in number everywhere, and the generator has been drawn from
    exactly [k] times. *)
Theorem trial_sizes {row hyper} `{L : Libs row hyper}
    (trial k : nat) (s s0 sk : notebook row hyper) :
  trial_init trial s = Ok s0 →
  bo_loop k s0 = Ok sk →
  length (train_x_ei sk) = length (train_x_ei s0) + k
  ∧ length (train_y_ei sk) = length (train_x_ei sk)
  ∧ length (heldout_x_ei sk) + k = length (heldout_x_ei s0)
  ∧ length (heldout_y_ei sk) = length (heldout_x_ei sk)
  ∧ length (heldout_x_random sk) = length (heldout_x_ei sk)
  ∧ length (heldout_y_random sk) = length (heldout_x_ei sk)
  ∧ rng sk = rng s0 + k.
Proof.
  intros Hinit Hloop.
  pose proof (trial_init_pools _ _ _ Hinit) as H0.
  pose proof (bo_loop_pools _ _ _ H0 Hloop)
    as [Hx _ Hlt Hlg Hlr _ _ Hzg Hzr].
  apply Permutation_length in Hx. rewrite !length_app in Hx.
  assert (Hsame : heldout_x_random s0 = heldout_x_ei s0).
  { apply trial_init_inv in Hinit
      as (train & test & tx & hx & ty & hy & b & _ & _ & _ & _ & _ & _ & _ & ->).
    done. }
  rewrite Hsame in Hzr.
  pose proof (bo_loop_rng _ _ _ Hloop) as Hrng.
  split_and!; lia.
Qed.

Lemma trial_sizes_witness :
  length (train_x_ei Demo.s3) = length (train_x_ei Demo.s0) + 3
  ∧ length (train_y_ei Demo.s3) = length (train_x_ei Demo.s3)
  ∧ length (heldout_x_ei Demo.s3) + 3 = length (heldout_x_ei Demo.s0)
  ∧ length (heldout_y_ei Demo.s3) = length (heldout_x_ei Demo.s3)
  ∧ length (heldout_x_random Demo.s3) = length (heldout_x_ei Demo.s3)
  ∧ length (heldout_y_random Demo.s3) = length (heldout_x_ei Demo.s3)
  ∧ rng Demo.s3 = rng Demo.s0 + 3.
Proof.
  apply (trial_sizes 1 3 Demo.nb Demo.s0 Demo.s3).
  - vm_compute. reflexivity.
  - vm_compute. reflexivity.
Defined.

(** ** How far a trial runs *)

Section Exhaustion.
Context {row hyper : Type} `{L : Libs row hyper}.

Implicit Types s : notebook row hyper.

(** What every iteration finds in place: a model behind the likelihood,
    a non-empty train set and two non-empty traces. *)
Lemma trial_state_ready trial k s s0 sk :
  trial_init trial s = Ok s0 →
  bo_loop k s0 = Ok sk →
  mll_model (mll_ei sk) = model_ei sk
  ∧ ∃ gp v prev prev_rnd,
      heap sk !! model_ei sk = Some gp
      ∧ tensor_max (train_y_ei sk) = Ok v
      ∧ last (best_observed_ei sk) = Some prev
      ∧ last (best_random sk) = Some prev_rnd.
Proof.
  intros Hinit Hloop.
  destruct (trial_init_traces _ _ _ Hinit) as (b & Hg & Hr & Hb).
  destruct (bo_loop_trace_shape _ _ _ _ Hg Hr Hloop) as (_ & Hlenr & _).
  destruct (bo_loop_best_f _ _ _ _ Hg (np_max_tensor_max _ _ Hb) Hloop)
    as (_ & _ & v & Hv & Hlast).
  destruct (trial_init_model _ _ _ Hinit) as (Hal & gp0 & Hgp0 & Hd & _).
  destruct (bo_loop_fits _ _ _ Hal (ex_intro _ gp0 (conj Hgp0 Hd)) Hloop)
    as (fits & _ & _ & _ & Hal' & gp & Hgp & _).
  split; [done|].
  destruct (last (best_random sk)) as [prev_rnd|] eqn:Hlastr.
  - exists gp, v, v, prev_rnd. done.
  - rewrite last_None in Hlastr. rewrite Hlastr in Hlenr.
    simpl in Hlenr. lia.
Qed.

Lemma bo_iteration_empty_pool s gp v :
  mll_model (mll_ei s) = model_ei s →
  heap s !! model_ei s = Some gp →
  tensor_max (train_y_ei s) = Ok v →
  heldout_y_ei s = [] →
  bo_iteration s = Raise IndexError.
Proof.
  intros Hal Hgp Hv Hempty.
  unfold bo_iteration, fit_gpytorch_model, deref.
  rewrite Hal, Hgp. simpl. rewrite Hv. simpl.
  rewrite lookup_insert_eq. simpl. by rewrite Hempty.
Qed.

Lemma take_rows_total {A} (a : list A) idx :
  Forall (λ i, i < length a) idx →
  ∃ r, take_rows a idx = Ok r ∧ length r = length idx.
Proof.
  induction 1 as [|i idx Hi _ (r & Hr & Hlen)]; simpl; [by exists []|].
  destruct (tensor_index_lt a i Hi) as [x ->]. simpl. rewrite Hr. simpl.
  exists (x :: r). simpl. by rewrite Hlen.
Qed.

End Exhaustion.

(** X7.  With a generator whose permutations are in range, a trial that
    has started completes [k] iterations exactly when [k] is at most the
    size of its pool; asked for more, the loop raises [IndexError], in
    the iteration that finds the pool of the GP policy empty. *)
Theorem trial_runs_until_pool_empty {row hyper} `{L : Libs row hyper}
    (trial k : nat) (s s0 : notebook row hyper) :
  randperm_in_range →
  trial_init trial s = Ok s0 →
  (k ≤ length (heldout_y_ei s0) → ∃ sk, bo_loop k s0 = Ok sk)
  ∧ (length (heldout_y_ei s0) < k → bo_loop k s0 = Raise IndexError).
Proof.
  intros Hrng Hinit. split; [by eapply bo_loop_total|].
  intros Hk. set (n := length (heldout_y_ei s0)) in *.
  destruct (bo_loop_total trial s s0 n Hrng Hinit) as [sn Hn]; [done|].
  replace k with (n + S (k - n - 1)) by lia.
  rewrite bo_loop_add, Hn. simpl. rewrite bo_loop_S_l.
  destruct (trial_state_ready _ _ _ _ _ Hinit Hn)
    as (Hal & gp & v & _ & _ & Hgp & Hv & _).
  pose proof (trial_init_pools _ _ _ Hinit) as H0.
  pose proof (bo_loop_pools _ _ _ H0 Hn) as [_ _ _ Hlg _ _ _ Hzg _].
  destruct H0 as [_ _ _ Hl0 _ _ _ _ _].
  assert (Hempty : heldout_y_ei sn = []).
  { apply length_zero_iff_nil. unfold n in *. lia. }
  by rewrite (bo_iteration_empty_pool sn gp v Hal Hgp Hv Hempty).
Qed.

Lemma trial_runs_until_pool_empty_witness :
  (∃ sk, bo_loop 38 Demo.s0 = Ok sk)
  ∧ bo_loop 39 Demo.s0 = Raise IndexError.
Proof.
  destruct (trial_runs_until_pool_empty 1 38 Demo.nb Demo.s0
              demo_randperm_in_range) as [Hok _]; [vm_compute; reflexivity|].
  destruct (trial_runs_until_pool_empty 1 39 Demo.nb Demo.s0
              demo_randperm_in_range) as [_ Hfail]; [vm_compute; reflexivity|].
  split.
  - apply Hok. vm_compute. lia.
  - apply Hfail. vm_compute. lia.
Defined.

(** X8.  The start of a trial.  Arrays [X] and [y] of different lengths
    are refused with [ValueError].  Otherwise, when the split returns
    indices in range, the trial raises [ValueError] if the train part is
    empty, and else starts: the train set and the pool have the sizes of
    the two index parts, the random policy gets the very pool of the GP
    policy, the two traces are the same single value, and neither the
    generator nor the collected results are touched. *)
Theorem trial_init_outcome {row hyper} `{L : Libs row hyper}
    (trial : nat) (s : notebook row hyper) :
  (length (X s) ≠ length (y s) → trial_init trial s = Raise ValueError)
  ∧ ∀ train test,
      length (X s) = length (y s) →
      split_indices holdout_set_size trial (length (X s)) = Ok (train, test) →
      Forall (λ i, i < length (X s)) (train ++ test) →
      (train = [] → trial_init trial s = Raise ValueError)
      ∧ (train ≠ [] →
         ∃ s0, trial_init trial s = Ok s0
               ∧ length (train_x_ei s0) = length train
               ∧ length (heldout_x_ei s0) = length test
               ∧ heldout_x_random s0 = heldout_x_ei s0
               ∧ heldout_y_random s0 = heldout_y_ei s0
               ∧ best_random s0 = best_observed_ei s0
               ∧ length (best_observed_ei s0) = 1
               ∧ rng s0 = rng s
               ∧ best_observed_all_ei s0 = best_observed_all_ei s
               ∧ best_random_all s0 = best_random_all s).
Proof.
  split.
  - intros Hne. unfold trial_init, train_test_split.
    by destruct (decide _).
  - intros train test Hlen Hsplit Hrange.
    apply Forall_app in Hrange as [Htr Hte].
    destruct (take_rows_total (X s) train Htr) as (tx & Htx & Hltx).
    destruct (take_rows_total (X s) test Hte) as (hx & Hhx & Hlhx).
    rewrite Hlen in Htr, Hte.
    destruct (take_rows_total (y s) train Htr) as (ty & Hty & Hlty).
    destruct (take_rows_total (y s) test Hte) as (hy & Hhy & Hlhy).
    assert (Hstart : trial_init trial s
              = np_max ty ≫= λ b,
                  let im := initialize_model tx ty None (heap s) in
                  Ok {| X := X s; y := y s;
                        best_observed_all_ei := best_observed_all_ei s;
                        best_random_all := best_random_all s;
                        best_observed_ei := [b]; best_random := [b];
                        train_x_ei := tx; train_y_ei := ty;
                        heldout_x_ei := hx; heldout_y_ei := hy;
                        heldout_x_random := hx; heldout_y_random := hy;
                        mll_ei := im.1.1; model_ei := im.1.2; heap := im.2;
                        rng := rng s;
                        fit_trace := fit_trace s;
                        best_f_trace := best_f_trace s |}).
    { unfold trial_init, train_test_split.
      destruct (decide _) as [_|Hne]; [|done].
      rewrite Hsplit. simpl. rewrite Htx, Hhx. simpl. rewrite Hty, Hhy.
      done. }
    rewrite Hstart. split.
    + intros ->. destruct ty; [done | simpl in Hlty; lia].
    + intros Hne. destruct ty as [|l ty].
      { destruct train; [done | simpl in Hlty; lia]. }
      simpl. eexists. split; [reflexivity|]. simpl.
      split_and!; try done; lia.
Qed.

Lemma trial_init_outcome_witness :
  trial_init 1 (load [1; 2; 3] [4; 5]%Z 0) = Raise ValueError
  ∧ ∃ s0, trial_init 1 Demo.nb = Ok s0
          ∧ length (train_x_ei s0) = length [39; 0]
          ∧ length (heldout_x_ei s0) = length (seq 1 38)
          ∧ heldout_x_random s0 = heldout_x_ei s0
          ∧ heldout_y_random s0 = heldout_y_ei s0
          ∧ best_random s0 = best_observed_ei s0
          ∧ length (best_observed_ei s0) = 1
          ∧ rng s0 = rng Demo.nb
          ∧ best_observed_all_ei s0 = best_observed_all_ei Demo.nb
          ∧ best_random_all s0 = best_random_all Demo.nb.
Proof.
  destruct (trial_init_outcome 1 (load [1; 2; 3] [4; 5]%Z 0)) as [Hbad _].
  destruct (trial_init_outcome 1 Demo.nb) as [_ Hgood].
  split.
  - apply Hbad. simpl. lia.
  - destruct (Hgood [39; 0] (seq 1 38)) as [_ Hstart].
    + reflexivity.
    + vm_compute. reflexivity.
    + apply (bool_decide_unpack _). vm_compute. exact I.
    + apply Hstart. discriminate.
Defined.

(** ** What the traces hold *)

Lemma take_rows_elem {A} (a : list A) idx r :
  take_rows a idx = Ok r → ∀ x, x ∈ r → x ∈ a.
Proof.
  revert r. induction idx as [|i idx IH]; intros r H x Hx; simpl in H.
  - injection H as <-. by apply elem_of_nil in Hx.
  - inv_ok H. subst r. apply tensor_index_Ok in Hx0.
    apply elem_of_cons in Hx as [->|Hx].
    + by eapply list_elem_of_lookup_2.
    + by eapply IH.
Qed.

Lemma take_rows_app_Ok {A} (a : list A) idx1 idx2 r1 r2 :
  take_rows a idx1 = Ok r1 → take_rows a idx2 = Ok r2 →
  take_rows a (idx1 ++ idx2) = Ok (r1 ++ r2).
Proof.
  revert r1. induction idx1 as [|i idx1 IH]; intros r1 H1 H2; simpl in *.
  - by injection H1 as <-.
  - inv_ok H1. subst r1. rewrite Hx. simpl.
    by rewrite (IH _ Hx0 H2).
Qed.

Lemma take_rows_seq_slice {A} (a : list A) n : ∀ k,
  k + n ≤ length a → take_rows a (seq k n) = Ok (take n (drop k a)).
Proof.
  induction n as [|n IH]; intros k Hk; simpl; [done|].
  destruct (lookup_lt_is_Some_2 a k) as [x Hx]; [lia|].
  unfold tensor_index. rewrite Hx. simpl. rewrite IH by lia. simpl.
  by rewrite (drop_S _ _ _ Hx).
Qed.

Lemma take_rows_perm {A} (a : list A) idx idx' :
  idx ≡ₚ idx' → ∀ r, take_rows a idx = Ok r →
  ∃ r', take_rows a idx' = Ok r' ∧ r ≡ₚ r'.
Proof.
  induction 1 as [|i idx idx' _ IH|i j idx|idx1 idx2 idx3 _ IH1 _ IH2];
    intros r H; simpl in *.
  - eauto.
  - inv_ok H. subst r. destruct (IH _ Hx0) as (r' & -> & Hp).
    rewrite Hx. simpl. eexists. split; [done|]. by constructor.
  - inv_ok H. inv_ok Hx0. subst. rewrite Hx1, Hx. simpl. rewrite Hx2. simpl.
    eexists. split; [done|]. apply perm_swap.
  - destruct (IH1 _ H) as (r2 & H2 & Hp2).
    destruct (IH2 _ H2) as (r3 & H3 & Hp3).
    exists r3. split; [done|]. by etrans.
Qed.

(** The rows selected by the two parts of a partition of the indices are,
    together, the rows of the array. *)
Lemma take_rows_partition {A} (a : list A) train test r1 r2 :
  train ++ test ≡ₚ seq 0 (length a) →
  take_rows a train = Ok r1 → take_rows a test = Ok r2 →
  r1 ++ r2 ≡ₚ a.
Proof.
  intros Hp H1 H2.
  pose proof (take_rows_app_Ok _ _ _ _ _ H1 H2) as H.
  destruct (take_rows_perm a _ _ Hp _ H) as (r' & Hr' & Hperm).
  rewrite take_rows_seq_slice in Hr' by (simpl; lia).
  rewrite drop_0, firstn_all in Hr'. injection Hr' as <-. done.
Qed.

Lemma is_max_of_perm m (l l' : list Z) :
  l ≡ₚ l' → is_max_of m l → is_max_of m l'.
Proof.
  intros Hp [Hin Hub]. split.
  - by rewrite <- Hp.
  - intros x Hx. apply Hub. by rewrite Hp.
Qed.

Lemma is_max_of_foldl b (l obs : list Z) :
  is_max_of b l → is_max_of (foldl Z.max b obs) (l ++ obs).
Proof.
  intros [Hin Hub]. split.
  - pose proof (foldl_max_elem b obs) as H.
    apply elem_of_cons in H as [->|H]; apply elem_of_app; auto.
  - intros x Hx. apply elem_of_app in Hx as [Hx|Hx].
    + pose proof (foldl_max_ge b obs). specialize (Hub _ Hx). lia.
    + apply foldl_max_upper. by right.
Qed.

Lemma running_best_lookup trace obs b :
  running_best trace obs → trace !! 0 = Some b →
  ∀ i, i ≤ length obs → trace !! i = Some (foldl Z.max b (take i obs)).
Proof.
  intros [Hlen Hstep] H0. induction i as [|i IH]; intros Hi; [done|].
  destruct (lookup_lt_is_Some_2 obs i) as [lbl Hl]; [lia|].
  rewrite (take_S_r _ _ _ Hl), foldl_snoc.
  apply Hstep; [apply IH; lia | done].
Qed.

Lemma running_best_last trace obs b :
  running_best trace obs → trace !! 0 = Some b →
  last trace = Some (foldl Z.max b obs).
Proof.
  intros Hrb H0. pose proof Hrb as [Hlen _].
  rewrite last_lookup, Hlen. simpl.
  rewrite (running_best_lookup _ _ _ Hrb H0 (length obs)) by done.
  by rewrite firstn_all.
Qed.

(** X9.  When the split draws a partition of the indices and the loop
    runs as many iterations as the pool has points, both policies have
    observed every candidate: the last entry of each trace is the
    greatest label of the whole dataset. *)
Theorem exhausted_pool_finds_maximum {row hyper} `{L : Libs row hyper}
    (trial k : nat) (s s0 sk : notebook row hyper) :
  (∀ train test,
     split_indices holdout_set_size trial (length (X s)) = Ok (train, test) →
     train ++ test ≡ₚ seq 0 (length (X s))) →
  trial_init trial s = Ok s0 →
  bo_loop k s0 = Ok sk →
  k = length (heldout_y_ei s0) →
  ∃ m, is_max_of m (y s)
       ∧ last (best_observed_ei sk) = Some m
       ∧ last (best_random sk) = Some m.
Proof.
  intros Hsplit Hinit Hloop Hk.
  pose proof (trial_init_pools _ _ _ Hinit) as H0.
  pose proof (bo_loop_pools _ _ _ H0 Hloop)
    as [_ Hy _ Hlg Hlr _ _ Hzg Hzr].
  destruct (trial_init_traces _ _ _ Hinit) as (b & Hg & Hr & Hb).
  destruct (bo_loop_trace_shape _ _ _ _ Hg Hr Hloop) as (_ & _ & _ & Hhr).
  destruct (bo_loop_best_f _ _ _ _ Hg (np_max_tensor_max _ _ Hb) Hloop)
    as (_ & _ & v & Hv & Hlast).
  assert (Hrb : running_best (best_random s0) []
                ∧ running_best (best_observed_ei s0) []).
  { rewrite Hg, Hr. split; apply running_best_init. }
  destruct Hrb as [Hrb0 Hgb0].
  destruct (bo_loop_traces _ _ _ Hgb0 Hrb0 Hloop)
    as (og & or & _ & _ & _ & Hpr & _ & Htr).
  assert (Hdata : train_y_ei s0 ++ heldout_y_ei s0 ≡ₚ y s
                  ∧ heldout_y_random s0 = heldout_y_ei s0
                  ∧ length (heldout_x_ei s0) = length (heldout_y_ei s0)
                  ∧ length (heldout_x_random s0) = length (heldout_y_ei s0)).
  { destruct H0 as [_ _ _ Hl0 Hl0r _ _ _ _].
    apply trial_init_inv in Hinit
      as (train & test & tx & hx & ty & hy & b' & Hlen & Hs & _ & _ & H3 & H4 & _ & ->).
    simpl in *. split_and!; try done.
    eapply take_rows_partition; [|done..].
    rewrite <- Hlen. by apply Hsplit. }
  destruct Hdata as (Hall & Hsame & Hl0 & Hl0r).
  assert (Hge : heldout_y_ei sk = []) by (apply length_zero_iff_nil; lia).
  assert (Hre : heldout_y_random sk = []) by (apply length_zero_iff_nil; lia).
  rewrite Hge, app_nil_r in Hy. rewrite Hre, app_nil_r, Hsame in Hpr.
  exists v. split_and!.
  - apply (is_max_of_perm v (train_y_ei sk)); [by rewrite Hy|].
    by apply tensor_max_spec.
  - done.
  - rewrite (running_best_last _ _ _ Htr Hhr). f_equal.
    assert (Hm : is_max_of (foldl Z.max b or) (y s)).
    { apply (is_max_of_perm _ (train_y_ei s0 ++ or)); [by rewrite Hpr|].
      apply is_max_of_foldl. by apply np_max_spec. }
    assert (Hv' : is_max_of v (y s)).
    { apply (is_max_of_perm v (train_y_ei sk)); [by rewrite Hy|].
      by apply tensor_max_spec. }
    destruct Hm as [Hm1 Hm2], Hv' as [Hv1 Hv2].
    specialize (Hm2 _ Hv1). specialize (Hv2 _ Hm1). lia.
Qed.

Lemma exhausted_pool_finds_maximum_witness :
  ∃ m, is_max_of m (y Demo.nb)
       ∧ last (best_observed_ei (Demo.get (bo_loop 38 Demo.s0))) = Some m
       ∧ last (best_random (Demo.get (bo_loop 38 Demo.s0))) = Some m.
Proof.
  apply (exhausted_pool_finds_maximum 1 38 Demo.nb Demo.s0
           (Demo.get (bo_loop 38 Demo.s0))).
  - intros train test H. vm_compute in H. injection H as <- <-.
    apply (bool_decide_unpack _). vm_compute. exact I.
  - vm_compute. reflexivity.
  - vm_compute. reflexivity.
  - vm_compute. reflexivity.
Defined.

(** X10.  Every entry of the two best-so-far traces is a label of the
    dataset, so no entry exceeds the greatest label. *)
Theorem best_values_are_labels {row hyper} `{L : Libs row hyper}
    (trial k : nat) (s s0 sk : notebook row hyper) :
  trial_init trial s = Ok s0 →
  bo_loop k s0 = Ok sk →
  ∀ b, b ∈ best_observed_ei sk ∨ b ∈ best_random sk →
       b ∈ y s ∧ ∀ m, is_max_of m (y s) → (b ≤ m)%Z.
Proof.
  intros Hinit Hloop.
  set (P := λ t : notebook row hyper,
         (∀ b, b ∈ best_observed_ei t → b ∈ y s)
         ∧ (∀ b, b ∈ best_random t → b ∈ y s)
         ∧ (∀ b, b ∈ heldout_y_ei t → b ∈ y s)
         ∧ (∀ b, b ∈ heldout_y_random t → b ∈ y s)).
  assert (HP : P sk).
  { revert Hloop. apply (for_range_inv P).
    - intros _ t t' (Hg & Hr & Hpg & Hpr) Hstep.
      apply bo_iteration_inv in Hstep
        as (gp0 & gp & best_f & i & x & lbl & j & rl & pr & p
            & _ & _ & _ & _ & _ & Hiy & _ & Hjy & Hlr & Hlg & ->).
      apply list_elem_of_lookup_2 in Hiy, Hjy.
      apply last_Some_elem_of in Hlr, Hlg.
      unfold P. simpl. split_and!.
      + intros b Hb. apply elem_of_app in Hb as [Hb|Hb]; [auto|].
        apply list_elem_of_singleton in Hb as ->. unfold torch_max.
        destruct (Z.max_spec lbl p) as [[_ ->]|[_ ->]]; auto.
      + intros b Hb. apply elem_of_app in Hb as [Hb|Hb]; [auto|].
        apply list_elem_of_singleton in Hb as ->. rewrite py_max_max.
        destruct (Z.max_spec pr rl) as [[_ ->]|[_ ->]]; auto.
      + intros b Hb. apply Hpg. by eapply list_elem_of_delete_inv.
      + intros b Hb. apply Hpr. by eapply list_elem_of_delete_inv.
    - apply trial_init_inv in Hinit
        as (train & test & tx & hx & ty & hy & b & _ & _ & _ & _ & H3 & H4 & Hb & ->).
      apply np_max_spec in Hb as [Hb _].
      unfold P. simpl. split_and!.
      + intros b' ->%list_elem_of_singleton.
        apply (take_rows_elem _ _ _ H3 _ Hb).
      + intros b' ->%list_elem_of_singleton.
        apply (take_rows_elem _ _ _ H3 _ Hb).
      + intros b' Hb'. apply (take_rows_elem _ _ _ H4 _ Hb').
      + intros b' Hb'. apply (take_rows_elem _ _ _ H4 _ Hb'). }
  destruct HP as (Hg & Hr & _).
  intros b Hb.
  assert (Hin : b ∈ y s) by (destruct Hb; auto).
  split; [done|]. intros m [_ Hub]. by apply Hub.
Qed.

Lemma best_values_are_labels_witness :
  (77%Z ∈ y Demo.nb ∧ ∀ m, is_max_of m (y Demo.nb) → (77 ≤ m)%Z)
  ∧ (94%Z ∈ y Demo.nb ∧ ∀ m, is_max_of m (y Demo.nb) → (94 ≤ m)%Z).
Proof.
  split.
  - apply (best_values_are_labels 1 3 Demo.nb Demo.s0 Demo.s3).
    + vm_compute. reflexivity.
    + vm_compute. reflexivity.
    + left. apply (bool_decide_unpack _). vm_compute. exact I.
  - apply (best_values_are_labels 1 3 Demo.nb Demo.s0 Demo.s3).
    + vm_compute. reflexivity.
    + vm_compute. reflexivity.
    + right. apply (bool_decide_unpack _). vm_compute. exact I.
Defined.

(** ** The two policies do not interfere *)

Section Independence.
Context {row hyper : Type}.

Implicit Types s t : notebook row hyper.

Lemma bo_iteration_gp_aligned `{L : Libs row hyper} s t s' t' :
  gp_aligned s t →
  bo_iteration s = Ok s' → bo_iteration t = Ok t' →
  gp_aligned s' t'.
Proof.
  intros (Hside & Has & Hat & gp & Hgs & Hgt) Hs Ht.
  unfold gp_side in Hside. injection Hside as Htx Hty Hhx Hhy Hbo.
  apply bo_iteration_inv in Hs
    as (gp0 & gp1 & best_f & i & x & lbl & j & rl & pr & p
        & Hgp0 & Hbf & Hgp1 & Ham & Hix & Hiy & _ & _ & _ & Hp & ->).
  apply bo_iteration_inv in Ht
    as (gp0' & gp1' & best_f' & i' & x' & lbl' & j' & rl' & pr' & p'
        & Hgp0' & Hbf' & Hgp1' & Ham' & Hix' & Hiy' & _ & _ & _ & Hp' & ->).
  rewrite Has, Hgs in Hgp0. injection Hgp0 as <-.
  rewrite Hat, Hgt in Hgp0'. injection Hgp0' as <-.
  rewrite Has, lookup_insert_eq in Hgp1. injection Hgp1 as <-.
  rewrite Hat, lookup_insert_eq in Hgp1'. injection Hgp1' as <-.
  rewrite <- Hty, Hbf in Hbf'. injection Hbf' as <-.
  rewrite <- Hhx, <- Hhy, Ham in Ham'. injection Ham' as <-.
  rewrite <- Hhx, Hix in Hix'. injection Hix' as <-.
  rewrite <- Hhy, Hiy in Hiy'. injection Hiy' as <-.
  rewrite <- Hbo, Hp in Hp'. injection Hp' as <-.
  unfold gp_aligned, gp_side.
  cbn [train_x_ei train_y_ei heldout_x_ei heldout_y_ei best_observed_ei
       mll_ei model_ei heap].
  rewrite Htx, Hty, Hhx, Hhy, Hbo. split; [done|].
  split; [apply initialize_model_mll|]. split; [apply initialize_model_mll|].
  eexists. split; apply initialize_model_lookup.
Qed.

Lemma bo_loop_gp_aligned `{L : Libs row hyper} k : ∀ s t sk tk,
  gp_aligned s t →
  bo_loop k s = Ok sk → bo_loop k t = Ok tk →
  gp_aligned sk tk.
Proof.
  induction k as [|k IH]; intros s t sk tk Hal Hs Ht.
  - injection Hs as <-. by injection Ht as <-.
  - rewrite bo_loop_S_l in Hs, Ht.
    apply bind_Ok in Hs as (s1 & Hs1 & Hs).
    apply bind_Ok in Ht as (t1 & Ht1 & Ht).
    eapply IH; [|done..]. by eapply bo_iteration_gp_aligned.
Qed.

End Independence.

(** X11.  The GP policy of a trial depends on the dataset and on the
    trial number only.  Two notebooks with the same dataset, whatever
    else they hold (the state of the generator, so the draws of the
    random policy, the models and results left by earlier trials), reach
    the same train set, pool and trace of the GP policy after the same
    number of iterations of the same trial. *)
Theorem gp_policy_depends_on_dataset_only {row hyper} `{L : Libs row hyper}
    (trial k : nat) (s t s0 t0 sk tk : notebook row hyper) :
  X s = X t → y s = y t →
  trial_init trial s = Ok s0 → trial_init trial t = Ok t0 →
  bo_loop k s0 = Ok sk → bo_loop k t0 = Ok tk →
  gp_side sk = gp_side tk.
Proof.
  intros HX Hy Hs Ht Hsk Htk.
  assert (Hal : gp_aligned s0 t0).
  { apply trial_init_inv in Hs
      as (train & test & tx & hx & ty & hy & b
          & _ & Hsp & H1 & H2 & H3 & H4 & Hb & ->).
    apply trial_init_inv in Ht
      as (train' & test' & tx' & hx' & ty' & hy' & b'
          & _ & Hsp' & H1' & H2' & H3' & H4' & Hb' & ->).
    rewrite <- HX, Hsp in Hsp'. injection Hsp' as <- <-.
    rewrite <- HX, H1 in H1'. injection H1' as <-.
    rewrite <- HX, H2 in H2'. injection H2' as <-.
    rewrite <- Hy, H3 in H3'. injection H3' as <-.
    rewrite <- Hy, H4 in H4'. injection H4' as <-.
    rewrite Hb in Hb'. injection Hb' as <-.
    unfold gp_aligned, gp_side.
    cbn [train_x_ei train_y_ei heldout_x_ei heldout_y_ei best_observed_ei
         mll_ei model_ei heap].
    split; [done|].
    split; [apply initialize_model_mll|]. split; [apply initialize_model_mll|].
    eexists. split; apply initialize_model_lookup. }
  by destruct (bo_loop_gp_aligned k _ _ _ _ Hal Hsk Htk) as [Hside _].
Qed.

Lemma gp_policy_depends_on_dataset_only_witness :
  gp_side Demo.s3
  = gp_side (Demo.get (bo_loop 3 (Demo.get (trial_init 1 Demo.s9)))).
Proof.
  apply (gp_policy_depends_on_dataset_only 1 3 Demo.nb Demo.s9 Demo.s0
           (Demo.get (trial_init 1 Demo.s9))).
  - vm_compute. reflexivity.
  - vm_compute. reflexivity.
  - vm_compute. reflexivity.
  - vm_compute. reflexivity.
  - vm_compute. reflexivity.
  - vm_compute. reflexivity.
Defined.

Lemma bo_iteration_random_side {row hyper1 hyper2}
    (L1 : Libs row hyper1) (L2 : Libs row hyper2)
    (s s' : notebook row hyper1) (t t' : notebook row hyper2) :
  (∀ g n, @randperm _ _ L1 g n = @randperm _ _ L2 g n) →
  random_side s = random_side t →
  bo_iteration (L := L1) s = Ok s' → bo_iteration (L := L2) t = Ok t' →
  random_side s' = random_side t'.
Proof.
  intros Hperm Hside Hs Ht.
  unfold random_side in Hside. injection Hside as Hhx Hhy Hbr Hrng.
  apply bo_iteration_inv in Hs
    as (gp0 & gp1 & best_f & i & x & lbl & j & rl & pr & p
        & _ & _ & _ & _ & _ & _ & Hj & Hjy & Hl & _ & ->).
  apply bo_iteration_inv in Ht
    as (gp0' & gp1' & best_f' & i' & x' & lbl' & j' & rl' & pr' & p'
        & _ & _ & _ & _ & _ & _ & Hj' & Hjy' & Hl' & _ & ->).
  rewrite <- Hrng, <- Hhy, <- Hperm, Hj in Hj'. injection Hj' as <-.
  rewrite <- Hhy, Hjy in Hjy'. injection Hjy' as <-.
  rewrite <- Hbr, Hl in Hl'. injection Hl' as <-.
  unfold random_side. simpl. by rewrite Hhx, Hhy, Hbr, Hrng.
Qed.

(** X12.  The random policy of a trial does not depend on the surrogate.
    With the same split and the same generator, whatever the
    hyperparameters, the optimiser and the acquisition function are, two
    runs of the same trial on the same dataset from the same state of
    the generator reach the same pool and trace of the random policy. *)
Theorem random_policy_ignores_surrogate {row hyper1 hyper2}
    (L1 : Libs row hyper1) (L2 : Libs row hyper2) (trial k : nat)
    (s s0 sk : notebook row hyper1) (t t0 tk : notebook row hyper2) :
  (∀ q r n, @split_indices _ _ L1 q r n = @split_indices _ _ L2 q r n) →
  (∀ g n, @randperm _ _ L1 g n = @randperm _ _ L2 g n) →
  X s = X t → y s = y t → rng s = rng t →
  trial_init (L := L1) trial s = Ok s0 →
  trial_init (L := L2) trial t = Ok t0 →
  bo_loop (L := L1) k s0 = Ok sk →
  bo_loop (L := L2) k t0 = Ok tk →
  random_side sk = random_side tk.
Proof.
  intros Hsplit Hperm HX Hy Hrng Hs Ht Hsk Htk.
  assert (H0 : random_side s0 = random_side t0).
  { apply trial_init_inv in Hs
      as (train & test & tx & hx & ty & hy & b
          & _ & Hsp & _ & H2 & H3 & H4 & Hb & ->).
    apply trial_init_inv in Ht
      as (train' & test' & tx' & hx' & ty' & hy' & b'
          & _ & Hsp' & _ & H2' & H3' & H4' & Hb' & ->).
    rewrite <- HX, <- Hsplit, Hsp in Hsp'. injection Hsp' as <- <-.
    rewrite <- HX, H2 in H2'. injection H2' as <-.
    rewrite <- Hy, H3 in H3'. injection H3' as <-.
    rewrite <- Hy, H4 in H4'. injection H4' as <-.
    rewrite Hb in Hb'. injection Hb' as <-.
    unfold random_side. simpl. by rewrite Hrng. }
  clear Hs Ht. revert s0 t0 H0 Hsk Htk.
  induction k as [|k IH]; intros s0 t0 H0 Hsk Htk.
  - injection Hsk as <-. by injection Htk as <-.
  - rewrite bo_loop_S_l in Hsk. rewrite bo_loop_S_l in Htk.
    apply bind_Ok in Hsk as (s1 & Hs1 & Hsk).
    apply bind_Ok in Htk as (t1 & Ht1 & Htk).
    eapply IH; [|done..].
    by eapply (bo_iteration_random_side L1 L2).
Qed.

Lemma random_policy_ignores_surrogate_witness :
  random_side Demo.s3
  = random_side
      (Demo.get (bo_loop (L := Demo2.libs) 3
                   (Demo.get (trial_init (L := Demo2.libs) 1 Demo.nb)))).
Proof.
  apply (random_policy_ignores_surrogate Demo.libs Demo2.libs 1 3
           Demo.nb Demo.s0 Demo.s3
           Demo.nb (Demo.get (trial_init (L := Demo2.libs) 1 Demo.nb))).
  - reflexivity.
  - reflexivity.
  - reflexivity.
  - reflexivity.
  - reflexivity.
  - vm_compute. reflexivity.
  - vm_compute. reflexivity.
  - vm_compute. reflexivity.
  - vm_compute. reflexivity.
Defined.

(** The two sets of libraries do select different candidates on the small
    instance, while the random policy is the same. *)
Example demo_surrogates_differ :
  train_x_ei Demo.s3
  ≠ train_x_ei
      (Demo.get (bo_loop (L := Demo2.libs) 3
                   (Demo.get (trial_init (L := Demo2.libs) 1 Demo.nb)))).
Proof. vm_compute. discriminate. Qed.
